(** * BIP-39 seed-plate helper: a shallow embedding of [main.py]

    The program reads a 2048-word list, collects 24 words interactively,
    resolves each to its 1-based position in the list, and prints two
    12-row grids whose columns are the bit weights 2048..1.

    Conventions of the embedding.
    - A Python [int] is a [Z]; [&] is [Z.land] (both are two's complement
      on unbounded integers).
    - A Python [str] is the list of its code points ([str := list N]).
      [str.strip], [str.splitlines] and [str.lower] follow CPython's
      tables of whitespace, line boundaries and case for every code
      point.
    - Standard output is the list of the writes made to it, in order.
    - A function that can raise returns a sum or an option. *)

From Stdlib Require Import String Ascii DecimalString.
From Stdlib Require Import ZArith NArith QArith Bool Lia Permutation List.
Import ListNotations.

Local Open Scope Z_scope.

(** ** Python strings *)

Module PyStr.

Definition str := list N.

(** An ASCII literal of the source as a [str]. *)
Definition lit (s : string) : str :=
  map N_of_ascii (list_ascii_of_string s).

(** [a == b] on strings. *)
Fixpoint str_eqb (a b : str) : bool :=
  match a, b with
  | [], [] => true
  | x :: a', y :: b' => N.eqb x y && str_eqb a' b'
  | _, _ => false
  end.

(** [a < b] on strings: lexicographic on code points. *)
Fixpoint str_ltb (a b : str) : bool :=
  match a, b with
  | _, [] => false
  | [], _ :: _ => true
  | x :: a', y :: b' => N.ltb x y || (N.eqb x y && str_ltb a' b')
  end.

(** [str.isspace] for one code point (CPython's [_PyUnicode_IsWhitespace]). *)
Definition is_space (c : N) : bool :=
  ((9 <=? c) && (c <=? 13) || (28 <=? c) && (c <=? 32) || (c =? 133)
   || (c =? 160) || (c =? 5760) || (8192 <=? c) && (c <=? 8202)
   || (c =? 8232) || (c =? 8233) || (c =? 8239) || (c =? 8287)
   || (c =? 12288))%N.

(** A line boundary of [str.splitlines] other than the pair CR LF. *)
Definition is_linebreak (c : N) : bool :=
  ((10 <=? c) && (c <=? 13) || (28 <=? c) && (c <=? 30) || (c =? 133)
   || (c =? 8232) || (c =? 8233))%N.

Fixpoint lstrip (s : str) : str :=
  match s with
  | [] => []
  | c :: s' => if is_space c then lstrip s' else s
  end.

Definition rstrip (s : str) : str := rev (lstrip (rev s)).

(** [s.strip()] *)
Definition strip (s : str) : str := rstrip (lstrip s).

(** *** [str.lower]

    CPython's [str.lower], with the tables of its Unicode database
    (CPython 3.11, Unicode 14.0.0). Each code point is replaced by its
    full lowercase mapping, [_PyUnicode_ToLowerFull]; only the capital
    sigma U+03A3 depends on its neighbours ([handle_capital_sigma]). *)

(** The code points that [_PyUnicode_ToLowerFull] changes into one code
    point: an entry [(lo, hi, step, target)] maps [lo], [lo + step], ...
    up to [hi] to [target], [target + step], ... *)
Definition lower_ranges : list (N * N * N * N) :=
  [(65, 90, 1, 97); (192, 214, 1, 224); (216, 222, 1, 248);
   (256, 302, 2, 257); (306, 310, 2, 307); (313, 327, 2, 314);
   (330, 374, 2, 331); (376, 376, 1, 255); (377, 381, 2, 378);
   (385, 385, 1, 595); (386, 388, 2, 387); (390, 390, 1, 596);
   (391, 391, 1, 392); (393, 394, 1, 598); (395, 395, 1, 396);
   (398, 398, 1, 477); (399, 399, 1, 601); (400, 400, 1, 603);
   (401, 401, 1, 402); (403, 403, 1, 608); (404, 404, 1, 611);
   (406, 406, 1, 617); (407, 407, 1, 616); (408, 408, 1, 409);
   (412, 412, 1, 623); (413, 413, 1, 626); (415, 415, 1, 629);
   (416, 420, 2, 417); (422, 422, 1, 640); (423, 423, 1, 424);
   (425, 425, 1, 643); (428, 428, 1, 429); (430, 430, 1, 648);
   (431, 431, 1, 432); (433, 434, 1, 650); (435, 437, 2, 436);
   (439, 439, 1, 658); (440, 440, 1, 441); (444, 444, 1, 445);
   (452, 452, 1, 454); (453, 453, 1, 454); (455, 455, 1, 457);
   (456, 456, 1, 457); (458, 458, 1, 460); (459, 475, 2, 460);
   (478, 494, 2, 479); (497, 497, 1, 499); (498, 500, 2, 499);
   (502, 502, 1, 405); (503, 503, 1, 447); (504, 542, 2, 505);
   (544, 544, 1, 414); (546, 562, 2, 547); (570, 570, 1, 11365);
   (571, 571, 1, 572); (573, 573, 1, 410); (574, 574, 1, 11366);
   (577, 577, 1, 578); (579, 579, 1, 384); (580, 580, 1, 649);
   (581, 581, 1, 652); (582, 590, 2, 583); (880, 882, 2, 881);
   (886, 886, 1, 887); (895, 895, 1, 1011); (902, 902, 1, 940);
   (904, 906, 1, 941); (908, 908, 1, 972); (910, 911, 1, 973);
   (913, 929, 1, 945); (931, 939, 1, 963); (975, 975, 1, 983);
   (984, 1006, 2, 985); (1012, 1012, 1, 952); (1015, 1015, 1, 1016);
   (1017, 1017, 1, 1010); (1018, 1018, 1, 1019); (1021, 1023, 1, 891);
   (1024, 1039, 1, 1104); (1040, 1071, 1, 1072); (1120, 1152, 2, 1121);
   (1162, 1214, 2, 1163); (1216, 1216, 1, 1231); (1217, 1229, 2, 1218);
   (1232, 1326, 2, 1233); (1329, 1366, 1, 1377); (4256, 4293, 1, 11520);
   (4295, 4295, 1, 11559); (4301, 4301, 1, 11565); (5024, 5103, 1, 43888);
   (5104, 5109, 1, 5112); (7312, 7354, 1, 4304); (7357, 7359, 1, 4349);
   (7680, 7828, 2, 7681); (7838, 7838, 1, 223); (7840, 7934, 2, 7841);
   (7944, 7951, 1, 7936); (7960, 7965, 1, 7952); (7976, 7983, 1, 7968);
   (7992, 7999, 1, 7984); (8008, 8013, 1, 8000); (8025, 8031, 2, 8017);
   (8040, 8047, 1, 8032); (8072, 8079, 1, 8064); (8088, 8095, 1, 8080);
   (8104, 8111, 1, 8096); (8120, 8121, 1, 8112); (8122, 8123, 1, 8048);
   (8124, 8124, 1, 8115); (8136, 8139, 1, 8050); (8140, 8140, 1, 8131);
   (8152, 8153, 1, 8144); (8154, 8155, 1, 8054); (8168, 8169, 1, 8160);
   (8170, 8171, 1, 8058); (8172, 8172, 1, 8165); (8184, 8185, 1, 8056);
   (8186, 8187, 1, 8060); (8188, 8188, 1, 8179); (8486, 8486, 1, 969);
   (8490, 8490, 1, 107); (8491, 8491, 1, 229); (8498, 8498, 1, 8526);
   (8544, 8559, 1, 8560); (8579, 8579, 1, 8580); (9398, 9423, 1, 9424);
   (11264, 11311, 1, 11312); (11360, 11360, 1, 11361); (11362, 11362, 1, 619);
   (11363, 11363, 1, 7549); (11364, 11364, 1, 637); (11367, 11371, 2, 11368);
   (11373, 11373, 1, 593); (11374, 11374, 1, 625); (11375, 11375, 1, 592);
   (11376, 11376, 1, 594); (11378, 11378, 1, 11379); (11381, 11381, 1, 11382);
   (11390, 11391, 1, 575); (11392, 11490, 2, 11393); (11499, 11501, 2, 11500);
   (11506, 11506, 1, 11507); (42560, 42604, 2, 42561);
   (42624, 42650, 2, 42625); (42786, 42798, 2, 42787);
   (42802, 42862, 2, 42803); (42873, 42875, 2, 42874);
   (42877, 42877, 1, 7545); (42878, 42886, 2, 42879);
   (42891, 42891, 1, 42892); (42893, 42893, 1, 613); (42896, 42898, 2, 42897);
   (42902, 42920, 2, 42903); (42922, 42922, 1, 614); (42923, 42923, 1, 604);
   (42924, 42924, 1, 609); (42925, 42925, 1, 620); (42926, 42926, 1, 618);
   (42928, 42928, 1, 670); (42929, 42929, 1, 647); (42930, 42930, 1, 669);
   (42931, 42931, 1, 43859); (42932, 42946, 2, 42933);
   (42948, 42948, 1, 42900); (42949, 42949, 1, 642); (42950, 42950, 1, 7566);
   (42951, 42953, 2, 42952); (42960, 42960, 1, 42961);
   (42966, 42968, 2, 42967); (42997, 42997, 1, 42998);
   (65313, 65338, 1, 65345); (66560, 66599, 1, 66600);
   (66736, 66771, 1, 66776); (66928, 66938, 1, 66967);
   (66940, 66954, 1, 66979); (66956, 66962, 1, 66995);
   (66964, 66965, 1, 67003); (68736, 68786, 1, 68800);
   (71840, 71871, 1, 71872); (93760, 93791, 1, 93792);
   (125184, 125217, 1, 125218)]%N.

(** The code points with the property Cased ([_PyUnicode_IsCased]), as
    ranges with both ends included. *)
Definition cased_ranges : list (N * N) :=
  [(65, 90); (97, 122); (170, 170); (181, 181); (186, 186); (192, 214);
   (216, 246); (248, 442); (444, 447); (452, 659); (661, 696); (704, 705);
   (736, 740); (837, 837); (880, 883); (886, 887); (890, 893); (895, 895);
   (902, 902); (904, 906); (908, 908); (910, 929); (931, 1013); (1015, 1153);
   (1162, 1327); (1329, 1366); (1376, 1416); (4256, 4293); (4295, 4295);
   (4301, 4301); (4304, 4346); (4349, 4351); (5024, 5109); (5112, 5117);
   (7296, 7304); (7312, 7354); (7357, 7359); (7424, 7615); (7680, 7957);
   (7960, 7965); (7968, 8005); (8008, 8013); (8016, 8023); (8025, 8025);
   (8027, 8027); (8029, 8029); (8031, 8061); (8064, 8116); (8118, 8124);
   (8126, 8126); (8130, 8132); (8134, 8140); (8144, 8147); (8150, 8155);
   (8160, 8172); (8178, 8180); (8182, 8188); (8305, 8305); (8319, 8319);
   (8336, 8348); (8450, 8450); (8455, 8455); (8458, 8467); (8469, 8469);
   (8473, 8477); (8484, 8484); (8486, 8486); (8488, 8488); (8490, 8493);
   (8495, 8500); (8505, 8505); (8508, 8511); (8517, 8521); (8526, 8526);
   (8544, 8575); (8579, 8580); (9398, 9449); (11264, 11492); (11499, 11502);
   (11506, 11507); (11520, 11557); (11559, 11559); (11565, 11565);
   (42560, 42605); (42624, 42653); (42786, 42887); (42891, 42894);
   (42896, 42954); (42960, 42961); (42963, 42963); (42965, 42969);
   (42997, 42998); (43000, 43002); (43824, 43866); (43868, 43880);
   (43888, 43967); (64256, 64262); (64275, 64279); (65313, 65338);
   (65345, 65370); (66560, 66639); (66736, 66771); (66776, 66811);
   (66928, 66938); (66940, 66954); (66956, 66962); (66964, 66965);
   (66967, 66977); (66979, 66993); (66995, 67001); (67003, 67004);
   (67456, 67456); (67459, 67461); (67463, 67504); (67506, 67514);
   (68736, 68786); (68800, 68850); (71840, 71903); (93760, 93823);
   (119808, 119892); (119894, 119964); (119966, 119967); (119970, 119970);
   (119973, 119974); (119977, 119980); (119982, 119993); (119995, 119995);
   (119997, 120003); (120005, 120069); (120071, 120074); (120077, 120084);
   (120086, 120092); (120094, 120121); (120123, 120126); (120128, 120132);
   (120134, 120134); (120138, 120144); (120146, 120485); (120488, 120512);
   (120514, 120538); (120540, 120570); (120572, 120596); (120598, 120628);
   (120630, 120654); (120656, 120686); (120688, 120712); (120714, 120744);
   (120746, 120770); (120772, 120779); (122624, 122633); (122635, 122654);
   (125184, 125251); (127280, 127305); (127312, 127337); (127344, 127369)]%N.

(** The code points with the property Case_Ignorable
    ([_PyUnicode_IsCaseIgnorable]). *)
Definition case_ignorable_ranges : list (N * N) :=
  [(39, 39); (46, 46); (58, 58); (94, 94); (96, 96); (168, 168); (173, 173);
   (175, 175); (180, 180); (183, 184); (688, 879); (884, 885); (890, 890);
   (900, 901); (903, 903); (1155, 1161); (1369, 1369); (1375, 1375);
   (1425, 1469); (1471, 1471); (1473, 1474); (1476, 1477); (1479, 1479);
   (1524, 1524); (1536, 1541); (1552, 1562); (1564, 1564); (1600, 1600);
   (1611, 1631); (1648, 1648); (1750, 1757); (1759, 1768); (1770, 1773);
   (1807, 1807); (1809, 1809); (1840, 1866); (1958, 1968); (2027, 2037);
   (2042, 2042); (2045, 2045); (2070, 2093); (2137, 2139); (2184, 2184);
   (2192, 2193); (2200, 2207); (2249, 2306); (2362, 2362); (2364, 2364);
   (2369, 2376); (2381, 2381); (2385, 2391); (2402, 2403); (2417, 2417);
   (2433, 2433); (2492, 2492); (2497, 2500); (2509, 2509); (2530, 2531);
   (2558, 2558); (2561, 2562); (2620, 2620); (2625, 2626); (2631, 2632);
   (2635, 2637); (2641, 2641); (2672, 2673); (2677, 2677); (2689, 2690);
   (2748, 2748); (2753, 2757); (2759, 2760); (2765, 2765); (2786, 2787);
   (2810, 2815); (2817, 2817); (2876, 2876); (2879, 2879); (2881, 2884);
   (2893, 2893); (2901, 2902); (2914, 2915); (2946, 2946); (3008, 3008);
   (3021, 3021); (3072, 3072); (3076, 3076); (3132, 3132); (3134, 3136);
   (3142, 3144); (3146, 3149); (3157, 3158); (3170, 3171); (3201, 3201);
   (3260, 3260); (3263, 3263); (3270, 3270); (3276, 3277); (3298, 3299);
   (3328, 3329); (3387, 3388); (3393, 3396); (3405, 3405); (3426, 3427);
   (3457, 3457); (3530, 3530); (3538, 3540); (3542, 3542); (3633, 3633);
   (3636, 3642); (3654, 3662); (3761, 3761); (3764, 3772); (3782, 3782);
   (3784, 3789); (3864, 3865); (3893, 3893); (3895, 3895); (3897, 3897);
   (3953, 3966); (3968, 3972); (3974, 3975); (3981, 3991); (3993, 4028);
   (4038, 4038); (4141, 4144); (4146, 4151); (4153, 4154); (4157, 4158);
   (4184, 4185); (4190, 4192); (4209, 4212); (4226, 4226); (4229, 4230);
   (4237, 4237); (4253, 4253); (4348, 4348); (4957, 4959); (5906, 5908);
   (5938, 5939); (5970, 5971); (6002, 6003); (6068, 6069); (6071, 6077);
   (6086, 6086); (6089, 6099); (6103, 6103); (6109, 6109); (6155, 6159);
   (6211, 6211); (6277, 6278); (6313, 6313); (6432, 6434); (6439, 6440);
   (6450, 6450); (6457, 6459); (6679, 6680); (6683, 6683); (6742, 6742);
   (6744, 6750); (6752, 6752); (6754, 6754); (6757, 6764); (6771, 6780);
   (6783, 6783); (6823, 6823); (6832, 6862); (6912, 6915); (6964, 6964);
   (6966, 6970); (6972, 6972); (6978, 6978); (7019, 7027); (7040, 7041);
   (7074, 7077); (7080, 7081); (7083, 7085); (7142, 7142); (7144, 7145);
   (7149, 7149); (7151, 7153); (7212, 7219); (7222, 7223); (7288, 7293);
   (7376, 7378); (7380, 7392); (7394, 7400); (7405, 7405); (7412, 7412);
   (7416, 7417); (7468, 7530); (7544, 7544); (7579, 7679); (8125, 8125);
   (8127, 8129); (8141, 8143); (8157, 8159); (8173, 8175); (8189, 8190);
   (8203, 8207); (8216, 8217); (8228, 8228); (8231, 8231); (8234, 8238);
   (8288, 8292); (8294, 8303); (8305, 8305); (8319, 8319); (8336, 8348);
   (8400, 8432); (11388, 11389); (11503, 11505); (11631, 11631);
   (11647, 11647); (11744, 11775); (11823, 11823); (12293, 12293);
   (12330, 12333); (12337, 12341); (12347, 12347); (12441, 12446);
   (12540, 12542); (40981, 40981); (42232, 42237); (42508, 42508);
   (42607, 42610); (42612, 42621); (42623, 42623); (42652, 42655);
   (42736, 42737); (42752, 42785); (42864, 42864); (42888, 42890);
   (42994, 42996); (43000, 43001); (43010, 43010); (43014, 43014);
   (43019, 43019); (43045, 43046); (43052, 43052); (43204, 43205);
   (43232, 43249); (43263, 43263); (43302, 43309); (43335, 43345);
   (43392, 43394); (43443, 43443); (43446, 43449); (43452, 43453);
   (43471, 43471); (43493, 43494); (43561, 43566); (43569, 43570);
   (43573, 43574); (43587, 43587); (43596, 43596); (43632, 43632);
   (43644, 43644); (43696, 43696); (43698, 43700); (43703, 43704);
   (43710, 43711); (43713, 43713); (43741, 43741); (43756, 43757);
   (43763, 43764); (43766, 43766); (43867, 43871); (43881, 43883);
   (44005, 44005); (44008, 44008); (44013, 44013); (64286, 64286);
   (64434, 64450); (65024, 65039); (65043, 65043); (65056, 65071);
   (65106, 65106); (65109, 65109); (65279, 65279); (65287, 65287);
   (65294, 65294); (65306, 65306); (65342, 65342); (65344, 65344);
   (65392, 65392); (65438, 65439); (65507, 65507); (65529, 65531);
   (66045, 66045); (66272, 66272); (66422, 66426); (67456, 67461);
   (67463, 67504); (67506, 67514); (68097, 68099); (68101, 68102);
   (68108, 68111); (68152, 68154); (68159, 68159); (68325, 68326);
   (68900, 68903); (69291, 69292); (69446, 69456); (69506, 69509);
   (69633, 69633); (69688, 69702); (69744, 69744); (69747, 69748);
   (69759, 69761); (69811, 69814); (69817, 69818); (69821, 69821);
   (69826, 69826); (69837, 69837); (69888, 69890); (69927, 69931);
   (69933, 69940); (70003, 70003); (70016, 70017); (70070, 70078);
   (70089, 70092); (70095, 70095); (70191, 70193); (70196, 70196);
   (70198, 70199); (70206, 70206); (70367, 70367); (70371, 70378);
   (70400, 70401); (70459, 70460); (70464, 70464); (70502, 70508);
   (70512, 70516); (70712, 70719); (70722, 70724); (70726, 70726);
   (70750, 70750); (70835, 70840); (70842, 70842); (70847, 70848);
   (70850, 70851); (71090, 71093); (71100, 71101); (71103, 71104);
   (71132, 71133); (71219, 71226); (71229, 71229); (71231, 71232);
   (71339, 71339); (71341, 71341); (71344, 71349); (71351, 71351);
   (71453, 71455); (71458, 71461); (71463, 71467); (71727, 71735);
   (71737, 71738); (71995, 71996); (71998, 71998); (72003, 72003);
   (72148, 72151); (72154, 72155); (72160, 72160); (72193, 72202);
   (72243, 72248); (72251, 72254); (72263, 72263); (72273, 72278);
   (72281, 72283); (72330, 72342); (72344, 72345); (72752, 72758);
   (72760, 72765); (72767, 72767); (72850, 72871); (72874, 72880);
   (72882, 72883); (72885, 72886); (73009, 73014); (73018, 73018);
   (73020, 73021); (73023, 73029); (73031, 73031); (73104, 73105);
   (73109, 73109); (73111, 73111); (73459, 73460); (78896, 78904);
   (92912, 92916); (92976, 92982); (92992, 92995); (94031, 94031);
   (94095, 94111); (94176, 94177); (94179, 94180); (110576, 110579);
   (110581, 110587); (110589, 110590); (113821, 113822); (113824, 113827);
   (118528, 118573); (118576, 118598); (119143, 119145); (119155, 119170);
   (119173, 119179); (119210, 119213); (119362, 119364); (121344, 121398);
   (121403, 121452); (121461, 121461); (121476, 121476); (121499, 121503);
   (121505, 121519); (122880, 122886); (122888, 122904); (122907, 122913);
   (122915, 122916); (122918, 122922); (123184, 123197); (123566, 123566);
   (123628, 123631); (125136, 125142); (125252, 125259); (127995, 127999);
   (917505, 917505); (917536, 917631); (917760, 917999)]%N.

Fixpoint lookup_lower (c : N) (t : list (N * N * N * N)) : option N :=
  match t with
  | [] => None
  | (lo, hi, step, target) :: t' =>
      if ((lo <=? c) && (c <=? hi) && ((c - lo) mod step =? 0))%N
      then Some (target + (c - lo))%N
      else lookup_lower c t'
  end.

Definition in_ranges (c : N) (t : list (N * N)) : bool :=
  existsb (fun r => (fst r <=? c) && (c <=? snd r))%N t.

Definition is_cased (c : N) : bool := in_ranges c cased_ranges.

Definition is_case_ignorable (c : N) : bool :=
  in_ranges c case_ignorable_ranges.

(** [_PyUnicode_ToLowerFull]: U+0130 is the one code point whose
    lowercase has two code points. *)
Definition lower_full (c : N) : list N :=
  if (c =? 304)%N then [105; 775]%N
  else
    match lookup_lower c lower_ranges with
    | Some d => [d]
    | None => [c]
    end.

(** The nearest code point of [l] that is not case-ignorable. *)
Fixpoint first_significant (l : str) : option N :=
  match l with
  | [] => None
  | c :: l' => if is_case_ignorable c then first_significant l' else Some c
  end.

(** [handle_capital_sigma]: the lowercase of a capital sigma that has
    [before] to its left (nearest first) and [after] to its right. It is
    the final sigma U+03C2 when a cased letter precedes and none follows,
    case-ignorable code points skipped; otherwise the sigma U+03C3. *)
Definition handle_capital_sigma (before after : str) : N :=
  match first_significant before with
  | Some c =>
      if is_cased c then
        match first_significant after with
        | Some d => if is_cased d then 963%N else 962%N
        | None => 962%N
        end
      else 963%N
  | None => 963%N
  end.

(** [lower] on the rest [s] of a string whose code points already passed
    are [before], nearest first. *)
Fixpoint lower_from (before s : str) : str :=
  match s with
  | [] => []
  | c :: rest =>
      (if (c =? 931)%N then [handle_capital_sigma before rest]
       else lower_full c)
      ++ lower_from (c :: before) rest
  end.

(** [s.lower()] *)
Definition lower (s : str) : str := lower_from [] s.

(** [s.splitlines()]: [cur] holds the current line, reversed. *)
Fixpoint splitlines_from (cur : str) (s : str) : list str :=
  match s with
  | [] => match cur with [] => [] | _ => [rev cur] end
  | c :: rest =>
      if (c =? 13)%N then
        match rest with
        | 10%N :: rest' => rev cur :: splitlines_from [] rest'
        | _ => rev cur :: splitlines_from [] rest
        end
      else if is_linebreak c then rev cur :: splitlines_from [] rest
      else splitlines_from (c :: cur) rest
  end.

Definition splitlines (s : str) : list str := splitlines_from [] s.

(** [sep.join(parts)] *)
Fixpoint join (sep : str) (parts : list str) : str :=
  match parts with
  | [] => []
  | [p] => p
  | p :: ps => p ++ sep ++ join sep ps
  end.

(** [str(n)] for an [int]. *)
Definition dec (n : Z) : str := lit (NilZero.string_of_int (Z.to_int n)).

Definition spaces (n : nat) : str := repeat 32%N n.

(** [f"{s:>w}"] and [f"{s:<w}"] *)
Definition rjust (w : nat) (s : str) : str := spaces (w - length s) ++ s.
Definition ljust (w : nat) (s : str) : str := s ++ spaces (w - length s).

(** [f"{n:0wd}"]: zeros go between the sign and the digits. *)
Definition zfill (w : nat) (n : Z) : str :=
  if n <? 0 then
    45%N :: repeat 48%N (w - 1 - length (dec (- n))) ++ dec (- n)
  else repeat 48%N (w - length (dec n)) ++ dec n.

(** Truth value of a string: it is not empty. *)
Definition truthy (s : str) : bool :=
  match s with [] => false | _ :: _ => true end.

(** [repr] of a list of [int]. *)
Definition repr_list (l : list Z) : str :=
  lit "[" ++ join (lit ", ") (map dec l) ++ lit "]".

End PyStr.

Import PyStr.

(** ** Constants *)

Definition POWERS_DESC : list Z :=
  [2048; 1024; 512; 256; 128; 64; 32; 16; 8; 4; 2; 1].
Definition MAX_WORDS : nat := 24.
Definition PLATE_ROWS : nat := 12.

(** ** Bit decomposer *)

Definition rows_to_punch (idx1 : Z) : list Z :=
  filter (fun p => negb (Z.land idx1 p =? 0)) POWERS_DESC.

(** The builtin [sum] over integers. *)
Definition py_sum (l : list Z) : Z := fold_left Z.add l 0.

(** [range(a, b)] *)
Definition range (a b : Z) : list Z :=
  map (fun k => a + Z.of_nat k) (seq 0 (Z.to_nat (b - a))).

(** [enumerate(l, start)] *)
Fixpoint enumerate {A} (l : list A) (start : Z) : list (Z * A) :=
  match l with
  | [] => []
  | x :: l' => (start, x) :: enumerate l' (start + 1)
  end.

(** [l.pop()]: the last element and the rest; [None] on the empty list,
    where Python raises IndexError. *)
Fixpoint pop {A} (l : list A) : option (A * list A) :=
  match l with
  | [] => None
  | x :: l' =>
      match pop l' with
      | None => Some (x, [])
      | Some (y, r) => Some (y, x :: r)
      end
  end.

(** [l.index(x)] on a list of strings: [None] where Python raises
    ValueError. *)
Fixpoint list_index (x : str) (l : list str) : option nat :=
  match l with
  | [] => None
  | y :: l' => if str_eqb y x then Some O else option_map S (list_index x l')
  end.

(** ** Output and endings *)

(** A write to standard output: [print(s)] (which adds the newline), or
    the prompt that [input(s)] shows. *)
Inductive event :=
| Print (s : str)
| Prompt (s : str).

Inductive exn :=
| EOFError
| IndexError
| AssertionError (msg : str).

(** How a run ends: the function returns, [sys.exit(arg)] is called, or
    an exception is not caught. *)
Inductive ending :=
| Returned
| SysExit (arg : str + Z)
| Raised (e : exn).

(** Code points of the source that are not ASCII. *)
Definition NL : N := 10.
Definition EM_DASH : N := 8212.
Definition EN_DASH : N := 8211.
Definition ARROW : N := 8594.
Definition PUNCH : N := 9679.
Definition MIDDLE_DOT : N := 183.

(** ** Wordlist loader *)

(** The file [BIP39_FILE] as the loader sees it: the path [p.resolve()],
    and, when the file exists, the text that [p.read_text] returns. A file
    that exists but cannot be read or decoded is not modelled. *)
Record file := { resolved : str; content : option str }.

(** [inl msg] is [sys.exit(msg)]. *)
Definition load_bip39 (f : file) : str + list str :=
  match content f with
  | None => inl (lit "Word list file not found: " ++ resolved f)
  | Some text =>
      let words :=
        map strip (filter (fun w => truthy (strip w)) (splitlines text)) in
      if negb (length words =? 2048)%nat then
        inl (lit "Unexpected word list length: "
             ++ dec (Z.of_nat (length words)) ++ lit " (expected 2048).")
      else inr words
  end.

(** ** Plate renderer *)

Definition mark (idx1 p : Z) : str :=
  if negb (Z.land idx1 p =? 0) then lit "  " ++ [PUNCH] ++ lit " "
  else lit "  " ++ [MIDDLE_DOT] ++ lit " ".

Definition plate_title (block_indices : list Z) (plate_no start_word_no : Z)
  : str :=
  [NL] ++ lit "=== PLATE " ++ dec plate_no ++ lit " " ++ [EM_DASH]
  ++ lit " words " ++ dec start_word_no ++ [EN_DASH]
  ++ dec (start_word_no + Z.of_nat (length block_indices) - 1)
  ++ lit " ===".

Definition plate_header : str :=
  lit "     " ++ join (lit " ") (map (fun p => rjust 4 (dec p)) POWERS_DESC).

Definition plate_rule : str :=
  lit "     " ++ join (lit " ") (map (fun _ => lit "----") POWERS_DESC).

Definition plate_row (r idx1 : Z) : str :=
  let marks := join (lit " ") (map (mark idx1) POWERS_DESC) in
  rjust 3 (dec r) ++ lit " |" ++ marks ++ lit "  (" ++ dec idx1 ++ lit ")".

(** The lines printed, in order. *)
Definition render_plate_rotated (block_indices : list Z)
  (plate_no start_word_no : Z) : list event :=
  [Print (plate_title block_indices plate_no start_word_no);
   Print plate_header;
   Print plate_rule]
  ++ map (fun '(r, idx1) => Print (plate_row r idx1))
       (enumerate block_indices start_word_no).

(** ** Self-check *)

(** The loop of [_self_check]: [Some msg] is the AssertionError of the
    first index whose weights do not sum to it. *)
Fixpoint self_check_loop (todo : list Z) : option str :=
  match todo with
  | [] => None
  | i :: todo' =>
      let s := py_sum (filter (fun p => negb (Z.land i p =? 0)) POWERS_DESC) in
      if s =? i then self_check_loop todo'
      else Some (lit "Bit-sum mismatch for " ++ dec i ++ lit ": got " ++ dec s)
  end.

Definition _self_check : str + list event :=
  match self_check_loop (range 1 2049) return (str + list event)%type with
  | Some msg => inl msg
  | None =>
      inr [Print (lit "OK: bit columns sum to the 1-based index for all 1..2048.")]
  end.

(** ** Word resolver, session loop and entry point

    [difflib]'s similarity score, [SequenceMatcher(None, x, word).ratio()],
    is a parameter of the development. *)

Section Program.

Variable ratio : str -> str -> Q.

(** A candidate with its score, ordered as Python orders the tuple. *)
Definition scored := (Q * str)%type.

Definition scored_ltb (a b : scored) : bool :=
  if Qeq_bool (fst a) (fst b) then str_ltb (snd a) (snd b)
  else negb (Qle_bool (fst b) (fst a)).

Fixpoint insert_desc (e : scored) (l : list scored) : list scored :=
  match l with
  | [] => [e]
  | h :: t => if scored_ltb e h then h :: insert_desc e t else e :: l
  end.

(** [heapq.nlargest(n, l)], that is [sorted(l, reverse=True)[:n]]. *)
Definition nlargest (n : nat) (l : list scored) : list scored :=
  firstn n (fold_right insert_desc [] l).

(** [difflib.get_close_matches(word, possibilities, n, cutoff)] for
    [n > 0] and [0 <= cutoff <= 1]. The two quick ratios it tests first
    are upper bounds of [ratio], so the test is the one on [ratio]. *)
Definition get_close_matches (word : str) (possibilities : list str)
  (n : nat) (cutoff : Q) : list str :=
  let result :=
    map (fun x => (ratio x word, x))
      (filter (fun x => Qle_bool cutoff (ratio x word)) possibilities) in
  map snd (nlargest n result).

(** The message of the ValueError raised for a word that is not listed. *)
Definition not_found_msg (word : str) (hint : list str) : str :=
  let msg := lit "Word '" ++ word ++ lit "' not in BIP39 list." in
  match hint with
  | [] => msg
  | _ :: _ => msg ++ lit " Did you mean: " ++ join (lit ", ") hint ++ lit "?"
  end.

(** [inl i] is the index returned, [inr msg] is [raise ValueError(msg)]. *)
Definition one_based_index (word : str) (wordlist : list str) : Z + str :=
  match list_index word wordlist with
  | Some i => inl (Z.of_nat i + 1)
  | None =>
      let hint := get_close_matches word wordlist 3 (3 # 4) in
      inr (not_found_msg word hint)
  end.

(** The two lists of [main]. *)
Record session := { words : list str; indices : list Z }.

Definition empty_session : session := {| words := []; indices := [] |}.

Definition prompt (st : session) : str :=
  lit "Word #" ++ zfill 2 (Z.of_nat (length (words st)) + 1) ++ lit ": ".

Definition is_undo (raw : str) : bool :=
  str_eqb raw (lit "back") || str_eqb raw (lit "undo").

(** One iteration of the [while] loop on the line [line] that [input]
    returned: what is written, and the session afterwards or the
    exception that ends the run. *)
Definition loop_body (wordlist : list str) (st : session) (line : str)
  : list event * (exn + session) :=
  let raw := lower (strip line) in
  let ask := Prompt (prompt st) in
  if is_undo raw then
    match pop (words st) with
    | Some (w, words') =>
        match pop (indices st) with
        | Some (i, indices') =>
            ([ask;
              Print (lit "Removed '" ++ w ++ lit "' (index " ++ dec i
                     ++ lit ").")],
             inr {| words := words'; indices := indices' |})
        | None => ([ask], inl IndexError)
        end
    | None => ([ask; Print (lit "Nothing to remove.")], inr st)
    end
  else if str_eqb raw [] then
    ([ask; Print (lit "Please enter a word (or 'back').")], inr st)
  else
    match one_based_index raw wordlist with
    | inr e => ([ask; Print e], inr st)
    | inl idx1 =>
        ([ask;
          Print (lit "  " ++ [ARROW] ++ lit " '" ++ raw ++ lit "': index="
                 ++ dec idx1 ++ lit "; rows (by value)="
                 ++ repr_list (rows_to_punch idx1))],
         inr {| words := words st ++ [raw]; indices := indices st ++ [idx1] |})
    end.

(** The [while len(words) < MAX_WORDS] loop on the lines still to be read
    from standard input. It gives the output, the session when the loop
    stopped, and either the exception that stopped it ([input] raises
    EOFError when no line is left) or the lines not read. *)
Fixpoint session_loop (wordlist : list str) (st : session) (stdin : list str)
  : list event * session * (exn + list str) :=
  if (length (words st) <? MAX_WORDS)%nat then
    match stdin with
    | [] => ([Prompt (prompt st)], st, inl EOFError)
    | line :: rest =>
        match loop_body wordlist st line with
        | (o, inl e) => (o, st, inl e)
        | (o, inr st') =>
            let '(o', st'', r) := session_loop wordlist st' rest in
            (o ++ o', st'', r)
        end
    end
  else ([], st, inr stdin).

Definition banner : str :=
  lit "Enter your 24 BIP-39 words one by one (English)." ++ [NL]
  ++ lit "- Type 'back' to remove the last word." ++ [NL]
  ++ lit "- Exactly 24 words are required.".

Definition summary_row (i : Z) (w : str) (idx1 : Z) : str :=
  rjust 2 (dec i) ++ lit ". " ++ ljust 10 w ++ lit " -> "
  ++ rjust 4 (dec idx1) ++ lit "   rows: " ++ repr_list (rows_to_punch idx1).

Definition summary (st : session) : list event :=
  Print ([NL] ++ lit "=== SUMMARY (24 words) ===")
  :: map (fun '(i, (w, idx1)) => Print (summary_row i w idx1))
       (enumerate (combine (words st) (indices st)) 1).

(** What [main] prints after the loop. *)
Definition report (st : session) : list event :=
  summary st
  ++ render_plate_rotated (firstn PLATE_ROWS (indices st)) 1 1
  ++ render_plate_rotated (skipn PLATE_ROWS (indices st)) 2 13.

Definition main (f : file) (stdin : list str) : list event * ending :=
  match load_bip39 f with
  | inl msg => ([], SysExit (inl msg))
  | inr wordlist =>
      match session_loop wordlist empty_session stdin with
      | (o, _, inl e) => (Print banner :: o, Raised e)
      | (o, st, inr _) => (Print banner :: o ++ report st, Returned)
      end
  end.

(** The [__main__] block, on [sys.argv]. *)
Definition program (argv : list str) (f : file) (stdin : list str)
  : list event * ending :=
  match argv with
  | _ :: a1 :: _ =>
      if str_eqb a1 (lit "--check") then
        match _self_check return (list event * ending)%type with
        | inl msg => ([], Raised (AssertionError msg))
        | inr o => (o, SysExit (inr 0))
        end
      else main f stdin
  | _ => main f stdin
  end.

End Program.

(** * Vocabulary of the statements *)

(** ** Sub-lists *)

(** Order-preserving sub-lists: the subsets of a list without repeats. *)
Inductive Subseq {A} : list A -> list A -> Prop :=
| Subseq_nil : Subseq [] []
| Subseq_take x l1 l2 : Subseq l1 l2 -> Subseq (x :: l1) (x :: l2)
| Subseq_skip x l1 l2 : Subseq l1 l2 -> Subseq l1 (x :: l2).

Fixpoint sublists {A} (l : list A) : list (list A) :=
  match l with
  | [] => [[]]
  | x :: l' => map (cons x) (sublists l') ++ sublists l'
  end.

Definition list_Z_eqb (a b : list Z) : bool :=
  if list_eq_dec Z.eq_dec a b then true else false.

(** ** Output *)

Definition OK_LINE : str :=
  lit "OK: bit columns sum to the 1-based index for all 1..2048.".

(** A line that opens a plate: the title [render_plate_rotated] prints. *)
Definition is_plate_title (ev : event) : bool :=
  match ev with
  | Print s =>
      let head := NL :: lit "=== PLATE " in
      str_eqb (firstn (length head) s) head
  | Prompt _ => false
  end.

Definition plates (out : list event) : nat :=
  length (filter is_plate_title out).

Definition FILLED : str := lit "  " ++ [PUNCH] ++ lit " ".
Definition EMPTY : str := lit "  " ++ [MIDDLE_DOT] ++ lit " ".

(** ** Strings and lines *)

(** No whitespace at the front. *)
Definition starts_clean (s : str) : Prop :=
  match s with
  | [] => True
  | c :: _ => is_space c = false
  end.

(** The pairs [(c, d)] of the table of [lower_full]: [c] with its
    lowercase [d]. *)
Definition table_pairs (t : list (N * N * N * N)) : list (N * N) :=
  flat_map
    (fun e =>
       match e with
       | (lo, hi, step, target) =>
           map (fun k => (lo + N.of_nat k * step, target + N.of_nat k * step)%N)
             (seq 0 (S (N.to_nat ((hi - lo) / step))))
       end) t.

(** [lower_full] leaves the code point as it is. *)
Definition settled (d : N) : bool :=
  match lookup_lower d lower_ranges with
  | Some _ => false
  | None => negb (d =? 304)%N
  end.

(** What is checked of every pair of the table: the lowercase is settled,
    neither code point is whitespace, and the two are in the same case
    classes. *)
Definition pair_ok (p : N * N) : bool :=
  settled (snd p) && negb (is_space (fst p)) && negb (is_space (snd p))
  && Bool.eqb (is_cased (fst p)) (is_cased (snd p))
  && Bool.eqb (is_case_ignorable (fst p)) (is_case_ignorable (snd p)).

(** One step of [lower_from]: what a code point becomes in its place. *)
Definition lowered (before : str) (c : N) (rest : str) : str :=
  if (c =? 931)%N then [handle_capital_sigma before rest] else lower_full c.

(** Two code points that are equal, or of which one is the lowercase of
    the other: the same letter in either case. *)
Definition letter_case_variant (x y : N) : Prop :=
  x = y \/ lower_full x = [y] \/ lower_full y = [x].

(** The same, a capital sigma U+03A3 against a small sigma excepted: the
    lowercase of a capital sigma depends on its neighbours. *)
Definition case_variant (x y : N) : Prop :=
  letter_case_variant x y /\ (x = 931%N <-> y = 931%N).

(** Two lines that differ only in the whitespace around them and in the
    case of letters, a capital sigma against a small one excepted. *)
Definition same_line (l1 l2 : str) : Prop :=
  exists w1 a w2 w3 b w4,
    l1 = w1 ++ a ++ w2 /\ l2 = w3 ++ b ++ w4
    /\ forallb is_space (w1 ++ w2 ++ w3 ++ w4) = true
    /\ Forall2 case_variant a b.

(** A line the loop accepts as a word of [wordlist]: stripped and
    lowercased it is not a command, not empty, and listed. *)
Definition accepted (wordlist : list str) (line : str) : Prop :=
  let raw := lower (strip line) in
  is_undo raw = false /\ raw <> [] /\ In raw wordlist.

(** ** The loader *)

(** The loader's contract in the order the specification gives it: split
    the text into lines, strip each, drop the empty ones. *)
Definition lines_kept (text : str) : list str :=
  filter truthy (map strip (splitlines text)).

Definition missing_msg (f : file) : str :=
  lit "Word list file not found: " ++ resolved f.

Definition length_msg (n : nat) : str :=
  lit "Unexpected word list length: " ++ dec (Z.of_nat n)
  ++ lit " (expected 2048).".

(** ** The loop *)

Section Invariant.

Variable ratio : str -> str -> Q.
Variable wordlist : list str.

(** The session after one iteration, without the output. *)
Definition next (st : session) (raw : str) : exn + session :=
  if is_undo raw then
    match pop (words st) with
    | Some (_, words') =>
        match pop (indices st) with
        | Some (_, indices') => inr {| words := words'; indices := indices' |}
        | None => inl IndexError
        end
    | None => inr st
    end
  else if str_eqb raw [] then inr st
  else
    match one_based_index ratio raw wordlist with
    | inr _ => inr st
    | inl idx1 =>
        inr {| words := words st ++ [raw]; indices := indices st ++ [idx1] |}
    end.

(** What holds of every entry the loop has accepted. *)
Definition entry_ok (w : str) (i : Z) : Prop :=
  is_undo w = false /\ w <> [] /\ one_based_index ratio w wordlist = inl i.

(** The invariant of the loop. *)
Definition good (st : session) : Prop :=
  (length (words st) <= MAX_WORDS)%nat
  /\ Forall2 entry_ok (words st) (indices st).

End Invariant.

(** ** Inputs of the worked examples *)

(** A similarity score for the examples: twice the length of the common
    prefix over the sum of the lengths (plus one, to keep the
    denominator positive). *)
Fixpoint common_prefix (a b : str) : nat :=
  match a, b with
  | x :: a', y :: b' => if N.eqb x y then S (common_prefix a' b') else O
  | _, _ => O
  end.

Definition prefix_ratio (x word : str) : Q :=
  Z.of_nat (2 * common_prefix x word)
  # Pos.of_succ_nat (length x + length word).

Definition small_list : list str :=
  [lit "abandon"; lit "ability"; lit "able"; lit "back"; lit "zoo"].

(** A 2048-line file: "abandon" first, "zoo" last, "w2".."w2047" between. *)
Definition word_of (k : Z) : str :=
  if k =? 1 then lit "abandon"
  else if k =? 2048 then lit "zoo"
  else lit "w" ++ dec k.

Definition bip_file : file :=
  {| resolved := lit "/tmp/bip39_en.txt";
     content := Some (concat (map (fun k => word_of k ++ [NL]) (range 1 2049)))
  |}.

(** A Greek word in small letters, with the sigma U+03C3 at its end, and
    the same word in capitals, with the capital sigma U+03A3. *)
Definition odos_small : str := [959; 948; 959; 963]%N.
Definition odos_capital : str := [927; 916; 927; 931]%N.

(** A file of 2048 lines, each the capital letter A. *)
Definition capital_file : file :=
  {| resolved := lit "/tmp/bip39_en.txt";
     content := Some (concat (repeat (lit "A" ++ [NL]) 2048)) |}.

(** 24 accepted words, with a mistyped word, an empty line and an undo on
    the way. *)
Definition typed_lines : list str :=
  [lit "abandon"; lit "abandom"; lit ""; lit "  Zoo "; lit "BACK";
   lit "w3"; lit "undo"; lit "zoo"]
  ++ map (fun k => lit "w" ++ dec k) (range 2 24).

(** ** Vocabulary of the further properties *)

(** No line boundary of [splitlines] occurs in the string. *)
Definition no_break (w : str) : bool :=
  forallb (fun c => negb (is_linebreak c)) w.

(** A word that survives the loader unchanged: not empty, no whitespace
    at either end, no line boundary inside. *)
Definition clean_word (w : str) : bool :=
  truthy w && str_eqb (strip w) w && no_break w.

(** The words one per line, each line ended by a newline. *)
Definition write_lines (ws : list str) : str :=
  concat (map (fun w => w ++ [NL]) ws).

(** A word as the loop holds it: lowercase, nothing to strip. *)
Definition normal_word (w : str) : Prop := lower w = w /\ strip w = w.

(** An exchange with the user: prompts, each followed by one printed
    line, except that the last prompt may be left without one. *)
Fixpoint dialogue (o : list event) : bool :=
  match o with
  | [] => true
  | Prompt _ :: o' =>
      match o' with
      | [] => true
      | Print _ :: o'' => dialogue o''
      | Prompt _ :: _ => false
      end
  | Print _ :: _ => false
  end.

(** A word list with an entry that is not lowercase. *)
Definition capital_list : list str := [lit "Abandon"; lit "zoo"].

(** A file with blank lines, indented lines and CR LF line ends. *)
Definition untidy_file : file :=
  {| resolved := lit "/tmp/bip39_en.txt";
     content :=
       Some (concat (map (fun k => lit "  " ++ word_of k ++ [13; 10; 10]%N)
                       (range 1 2049))) |}.

(** * Properties *)

(** ** Helpers on lists and strings *)

Lemma str_eqb_eq (a b : str) : str_eqb a b = true <-> a = b.
Proof.
  revert b; induction a as [|x a IH]; intros [|y b]; simpl;
    try (split; [discriminate | discriminate]); try tauto.
  rewrite andb_true_iff, N.eqb_eq, IH. split.
  - intros [-> ->]; reflexivity.
  - intros H; injection H; auto.
Qed.

Lemma str_eqb_refl (a : str) : str_eqb a a = true.
Proof. apply str_eqb_eq; reflexivity. Qed.

Lemma str_eqb_neq (a b : str) : str_eqb a b = false <-> a <> b.
Proof.
  rewrite <- str_eqb_eq. destruct (str_eqb a b); split; congruence.
Qed.

Lemma range_In (a b i : Z) : a <= i < b -> In i (range a b).
Proof.
  intros H. unfold range. apply in_map_iff.
  exists (Z.to_nat (i - a)). split; [lia|].
  apply in_seq. lia.
Qed.

Lemma py_sum_cons (x : Z) (l : list Z) : py_sum (x :: l) = x + py_sum l.
Proof.
  unfold py_sum. simpl.
  assert (G : forall l a, fold_left Z.add l a = a + fold_left Z.add l 0).
  { clear. induction l as [|y l IH]; intros a; simpl; [lia|].
    rewrite (IH (a + y)), (IH y); lia. }
  rewrite (G l x); reflexivity.
Qed.

Lemma Subseq_sublists {A} (l1 l2 : list A) :
  Subseq l1 l2 -> In l1 (sublists l2).
Proof.
  induction 1; simpl.
  - left; reflexivity.
  - apply in_or_app; left. apply in_map; assumption.
  - apply in_or_app; right; assumption.
Qed.

Lemma Subseq_filter {A} (f : A -> bool) (l : list A) : Subseq (filter f l) l.
Proof.
  induction l as [|x l IH]; simpl; [constructor|].
  destruct (f x); constructor; assumption.
Qed.

Lemma sum_check_all :
  forallb (fun i => py_sum (rows_to_punch i) =? i) (range 1 2049) = true.
Proof. vm_compute. reflexivity. Qed.

Lemma unique_check_all :
  forallb (fun l => list_Z_eqb (rows_to_punch (py_sum l)) l)
    (sublists POWERS_DESC) = true.
Proof. vm_compute. reflexivity. Qed.

Lemma rows_to_punch_sum (idx : Z) :
  1 <= idx <= 2048 -> py_sum (rows_to_punch idx) = idx.
Proof.
  intros H. pose proof sum_check_all as A.
  rewrite forallb_forall in A.
  apply Z.eqb_eq, A, range_In. lia.
Qed.

Lemma rows_to_punch_of_sum (l : list Z) :
  Subseq l POWERS_DESC -> rows_to_punch (py_sum l) = l.
Proof.
  intros H. pose proof unique_check_all as A.
  rewrite forallb_forall in A.
  specialize (A l (Subseq_sublists _ _ H)).
  unfold list_Z_eqb in A.
  destruct (list_eq_dec Z.eq_dec (rows_to_punch (py_sum l)) l);
    [assumption | discriminate].
Qed.

Lemma rows_to_punch_In (idx p : Z) :
  In p (rows_to_punch idx) <-> In p POWERS_DESC /\ Z.land idx p <> 0.
Proof.
  unfold rows_to_punch. rewrite filter_In, negb_true_iff, Z.eqb_neq.
  reflexivity.
Qed.

Lemma py_sum_perm (l l' : list Z) :
  Permutation l l' -> py_sum l = py_sum l'.
Proof.
  induction 1 as [|x l l' _ IH|x y l|l l' l'' _ IH1 _ IH2].
  - reflexivity.
  - rewrite !py_sum_cons, IH. reflexivity.
  - rewrite !py_sum_cons. lia.
  - congruence.
Qed.

Lemma POWERS_DESC_NoDup : NoDup POWERS_DESC.
Proof.
  unfold POWERS_DESC.
  repeat (apply NoDup_cons; [simpl; lia|]). apply NoDup_nil.
Qed.

(** A set of weights, listed in any order, has the same members as one
    sub-list of [POWERS_DESC]. *)
Lemma subset_as_sublist (l : list Z) :
  NoDup l -> incl l POWERS_DESC ->
  exists l', Subseq l' POWERS_DESC /\ Permutation l l'.
Proof.
  intros Hl Hi.
  exists (filter (fun p => existsb (Z.eqb p) l) POWERS_DESC).
  split; [apply Subseq_filter|].
  apply NoDup_Permutation; [assumption | |].
  - apply NoDup_filter, POWERS_DESC_NoDup.
  - intros p. rewrite filter_In, existsb_exists. split.
    + intros H. split; [apply Hi, H|]. exists p. split; [exact H|].
      apply Z.eqb_refl.
    + intros [_ (q & Hq & E)]. apply Z.eqb_eq in E. subst; assumption.
Qed.

(** ** C1: the bit decomposer *)

(** C1. For every index in [1,2048], [rows_to_punch] returns exactly the
    weights of [POWERS_DESC] whose bitwise AND with the index is not
    zero, in the order of [POWERS_DESC] (descending); their sum is the
    index. It is the only subset of the weights with that sum: a sub-list
    of [POWERS_DESC] with that sum is this list, and a list of distinct
    weights in any order with that sum is a permutation of it. In
    particular the decompositions of 3, 2048 and 2047 are as listed. *)
Theorem C1_rows_to_punch_binary :
  (forall idx : Z, 1 <= idx <= 2048 ->
     (forall p, In p (rows_to_punch idx)
                <-> In p POWERS_DESC /\ Z.land idx p <> 0)
     /\ Subseq (rows_to_punch idx) POWERS_DESC
     /\ py_sum (rows_to_punch idx) = idx
     /\ (forall l, Subseq l POWERS_DESC -> py_sum l = idx ->
                   l = rows_to_punch idx)
     /\ (forall l, NoDup l -> incl l POWERS_DESC -> py_sum l = idx ->
                   Permutation l (rows_to_punch idx)))
  /\ POWERS_DESC = [2048; 1024; 512; 256; 128; 64; 32; 16; 8; 4; 2; 1]
  /\ rows_to_punch 3 = [2; 1]
  /\ rows_to_punch 2048 = [2048]
  /\ rows_to_punch 2047 = [1024; 512; 256; 128; 64; 32; 16; 8; 4; 2; 1].
Proof.
  split; [|repeat split; reflexivity].
  intros idx H. split; [|split; [|split; [|split]]].
  - intros p. apply rows_to_punch_In.
  - apply Subseq_filter.
  - apply rows_to_punch_sum; assumption.
  - intros l Hl Hs. rewrite <- Hs. symmetry.
    apply rows_to_punch_of_sum; assumption.
  - intros l Hn Hi Hs.
    destruct (subset_as_sublist l Hn Hi) as (l' & Hsub & Hp).
    rewrite <- Hs, (py_sum_perm _ _ Hp), (rows_to_punch_of_sum l' Hsub).
    exact Hp.
Qed.

(** ** C9: the self-check *)

Lemma range_In_iff (a b i : Z) : In i (range a b) <-> a <= i < b.
Proof.
  split; [|apply range_In].
  unfold range. rewrite in_map_iff. intros (k & <- & Hk).
  apply in_seq in Hk. lia.
Qed.

(** The sum the assertion of [_self_check] compares with [i]. *)
Lemma self_check_loop_cons (i : Z) (todo : list Z) :
  self_check_loop (i :: todo)
  = let s := py_sum (filter (fun p => negb (Z.land i p =? 0)) POWERS_DESC) in
    if s =? i then self_check_loop todo
    else Some (lit "Bit-sum mismatch for " ++ dec i ++ lit ": got " ++ dec s).
Proof. reflexivity. Qed.

Lemma self_check_loop_None (todo : list Z) :
  self_check_loop todo = None <->
  (forall i, In i todo ->
     py_sum (filter (fun p => negb (Z.land i p =? 0)) POWERS_DESC) = i).
Proof.
  induction todo as [|i todo IH]; [split; [intros _ i [] | reflexivity]|].
  rewrite self_check_loop_cons. cbv zeta.
  destruct (Z.eqb_spec
              (py_sum (filter (fun p => negb (Z.land i p =? 0)) POWERS_DESC))
              i) as [E|E].
  - rewrite IH. split.
    + intros H j [<-|Hj]; [exact E | apply H, Hj].
    + intros H j Hj. apply H. right; exact Hj.
  - split; [discriminate|]. intros H. elim E. apply H. left; reflexivity.
Qed.

Lemma self_check_loop_Some (todo : list Z) (msg : str) :
  self_check_loop todo = Some msg ->
  exists pre i post,
    todo = pre ++ i :: post
    /\ self_check_loop pre = None
    /\ py_sum (filter (fun p => negb (Z.land i p =? 0)) POWERS_DESC) <> i
    /\ msg = lit "Bit-sum mismatch for " ++ dec i ++ lit ": got "
             ++ dec (py_sum (filter (fun p => negb (Z.land i p =? 0))
                               POWERS_DESC)).
Proof.
  induction todo as [|i todo IH]; [discriminate|].
  rewrite self_check_loop_cons. cbv zeta.
  destruct (Z.eqb_spec
              (py_sum (filter (fun p => negb (Z.land i p =? 0)) POWERS_DESC))
              i) as [E|E].
  - intros H. destruct (IH H) as (pre & k & post & -> & P & N & M).
    exists (i :: pre), k, post. split; [reflexivity|].
    split; [|auto]. rewrite self_check_loop_cons. cbv zeta.
    apply Z.eqb_eq in E. rewrite E. exact P.
  - intros H; injection H as <-. exists [], i, todo. auto.
Qed.

(** C9. With [--check] as first argument the program runs the self-check
    and exits with status 0: it prints the pass line only, whatever the
    word-list file and standard input hold, so neither the loader nor the
    session runs. The loop of the self-check goes through its indices in
    order and asserts at each that the weights whose AND with [i] is not
    zero sum to [i]: it ends without an AssertionError exactly when the
    sum is right at every index, and otherwise raises at the first index
    where it is not, as it would at 4096. [_self_check] runs this loop on
    exactly the indices 1..2048, where the sum is right at each, so no
    AssertionError is raised and the pass line is printed. *)
Theorem C9_self_check_passes :
  (forall todo,
     self_check_loop todo = None <->
     (forall i, In i todo ->
        py_sum (filter (fun p => negb (Z.land i p =? 0)) POWERS_DESC) = i))
  /\ (forall todo msg,
        self_check_loop todo = Some msg ->
        exists pre i post,
          todo = pre ++ i :: post
          /\ self_check_loop pre = None
          /\ py_sum (filter (fun p => negb (Z.land i p =? 0)) POWERS_DESC)
             <> i
          /\ msg = lit "Bit-sum mismatch for " ++ dec i ++ lit ": got "
                   ++ dec (py_sum (filter (fun p => negb (Z.land i p =? 0))
                                     POWERS_DESC)))
  /\ self_check_loop [4096] = Some (lit "Bit-sum mismatch for 4096: got 0")
  /\ _self_check
     = match self_check_loop (range 1 2049) return (str + list event)%type with
       | Some msg => inl msg
       | None => inr [Print OK_LINE]
       end
  /\ (forall i, In i (range 1 2049) <-> 1 <= i <= 2048)
  /\ (forall i, 1 <= i <= 2048 ->
        py_sum (filter (fun p => negb (Z.land i p =? 0)) POWERS_DESC) = i)
  /\ self_check_loop (range 1 2049) = None
  /\ _self_check = inr [Print OK_LINE]
  /\ (forall ratio prog rest f stdin,
        program ratio (prog :: lit "--check" :: rest) f stdin
        = ([Print OK_LINE], SysExit (inr 0))).
Proof.
  assert (R : forall i, In i (range 1 2049) <-> 1 <= i <= 2048)
    by (intros i; rewrite range_In_iff; lia).
  assert (L : self_check_loop (range 1 2049) = None).
  { apply self_check_loop_None. intros i Hi. apply R in Hi.
    apply (rows_to_punch_sum i Hi). }
  assert (E : _self_check = inr [Print OK_LINE])
    by (unfold _self_check; rewrite L; reflexivity).
  split; [exact self_check_loop_None|].
  split; [exact self_check_loop_Some|].
  split; [reflexivity|].
  split; [reflexivity|].
  split; [exact R|].
  split; [intros i Hi; apply (rows_to_punch_sum i Hi)|].
  split; [exact L|].
  split; [exact E|].
  intros ratio prog rest f stdin. unfold program.
  rewrite str_eqb_refl, E. reflexivity.
Qed.

(** ** C3 and C4: the word resolver *)

Lemma list_index_None (x : str) (l : list str) :
  list_index x l = None <-> ~ In x l.
Proof.
  induction l as [|y l IH]; simpl; [tauto|].
  destruct (str_eqb y x) eqn:E.
  - apply str_eqb_eq in E. split; [discriminate | intros H; elim H; auto].
  - apply str_eqb_neq in E. destruct (list_index x l); simpl.
    + split; [discriminate|]. intros H. exfalso. apply H. right.
      destruct (proj1 (not_iff_compat IH)); [discriminate|].
      tauto.
    + split; [|reflexivity]. intros _ [H|H]; [congruence|].
      apply (proj1 IH); auto.
Qed.

Lemma list_index_Some (x : str) (l : list str) (i : nat) :
  list_index x l = Some i ->
  nth_error l i = Some x /\ forall j, (j < i)%nat -> nth_error l j <> Some x.
Proof.
  revert i; induction l as [|y l IH]; simpl; intros i; [discriminate|].
  destruct (str_eqb y x) eqn:E.
  - intros H; injection H as <-. apply str_eqb_eq in E; subst y.
    split; [reflexivity | intros j Hj; lia].
  - apply str_eqb_neq in E. destruct (list_index x l) as [k|]; simpl;
      [|discriminate].
    intros H; injection H as <-. destruct (IH k eq_refl) as [A B].
    split; [exact A|]. intros [|j] Hj; simpl.
    + congruence.
    + apply B; lia.
Qed.

Lemma In_firstn {A} (n : nat) (x : A) (l : list A) :
  In x (firstn n l) -> In x l.
Proof.
  revert l; induction n as [|n IH]; intros [|y l]; simpl; try tauto.
  intros [H|H]; auto.
Qed.

Section ResolverFacts.

Variable ratio : str -> str -> Q.

Lemma insert_desc_In (e x : scored) (l : list scored) :
  In x (insert_desc e l) -> x = e \/ In x l.
Proof.
  induction l as [|h t IH]; simpl.
  - intros [H|[]]; auto.
  - destruct (scored_ltb e h); simpl.
    + intros [H|H]; [auto|]. destruct (IH H); auto.
    + intros [H|[H|H]]; auto.
Qed.

Lemma nlargest_In (n : nat) (x : scored) (l : list scored) :
  In x (nlargest n l) -> In x l.
Proof.
  unfold nlargest. intros H. apply In_firstn in H.
  induction l as [|e l IH]; simpl in *; [assumption|].
  destruct (insert_desc_In _ _ _ H); auto.
Qed.

Lemma get_close_matches_In (word x : str) (l : list str) (n : nat) (c : Q) :
  In x (get_close_matches ratio word l n c) ->
  In x l /\ Qle_bool c (ratio x word) = true.
Proof.
  unfold get_close_matches. rewrite in_map_iff.
  intros ([s y] & <- & H). apply nlargest_In in H.
  apply in_map_iff in H. destruct H as (z & E & H).
  injection E as _ ->. apply filter_In in H. exact H.
Qed.

Lemma get_close_matches_length (word : str) (l : list str) (n : nat) (c : Q) :
  (length (get_close_matches ratio word l n c) <= n)%nat.
Proof.
  unfold get_close_matches, nlargest.
  rewrite length_map. apply firstn_le_length.
Qed.

(** C3. For a word of the word list, [one_based_index] returns the
    1-based position of its first occurrence: the entry there is the word
    and no earlier entry is. The result does not depend on the similarity
    score, and any two evaluations on the same word and list agree. *)
Theorem C3_index_of_listed_word (w : str) (wordlist : list str) :
  In w wordlist ->
  exists i : nat,
    one_based_index ratio w wordlist = inl (Z.of_nat i + 1)
    /\ nth_error wordlist i = Some w
    /\ (forall j, (j < i)%nat -> nth_error wordlist j <> Some w)
    /\ 1 <= Z.of_nat i + 1 <= Z.of_nat (length wordlist)
    /\ (forall r1 r2,
          one_based_index ratio w wordlist = r1 ->
          one_based_index ratio w wordlist = r2 ->
          r1 = inl (Z.of_nat i + 1) /\ r2 = r1).
Proof.
  intros Hin. unfold one_based_index.
  destruct (list_index w wordlist) as [i|] eqn:E.
  - exists i. destruct (list_index_Some _ _ _ E) as [A B].
    assert (i < length wordlist)%nat
      by (apply nth_error_Some; congruence).
    repeat split; try assumption; try lia.
    + symmetry; assumption.
    + subst; reflexivity.
  - apply list_index_None in E. contradiction.
Qed.

End ResolverFacts.

(** ** The session loop: one iteration *)

Lemma pop_None {A} (l : list A) : pop l = None <-> l = [].
Proof.
  destruct l as [|x l]; simpl; [tauto|].
  destruct (pop l) as [[y r]|]; split; discriminate.
Qed.

Lemma pop_app {A} (l : list A) (x : A) : pop (l ++ [x]) = Some (x, l).
Proof.
  induction l as [|y l IH]; simpl; [reflexivity|].
  rewrite IH; reflexivity.
Qed.

Lemma pop_Some {A} (l r : list A) (x : A) :
  pop l = Some (x, r) -> l = r ++ [x].
Proof.
  revert r; induction l as [|y l IH]; simpl; intros r; [discriminate|].
  destruct (pop l) as [[z r']|] eqn:E.
  - intros H; injection H as <- <-. simpl. f_equal. apply IH; reflexivity.
  - intros H; injection H as <- <-. apply pop_None in E; subst; reflexivity.
Qed.

Lemma is_undo_iff (raw : str) :
  is_undo raw = true <-> raw = lit "back" \/ raw = lit "undo".
Proof.
  unfold is_undo. rewrite orb_true_iff, !str_eqb_eq. reflexivity.
Qed.

Section LoopFacts.

Variable ratio : str -> str -> Q.
Variable wordlist : list str.

Lemma loop_body_next (st : session) (line : str) :
  snd (loop_body ratio wordlist st line) = next ratio wordlist st (lower (strip line)).
Proof.
  unfold loop_body, next.
  destruct (is_undo (lower (strip line))).
  - destruct (pop (words st)) as [[w ws]|]; [|reflexivity].
    destruct (pop (indices st)) as [[i ix]|]; reflexivity.
  - destruct (str_eqb (lower (strip line)) []); [reflexivity|].
    destruct (one_based_index ratio (lower (strip line)) wordlist);
      reflexivity.
Qed.

Lemma one_based_index_inl (w : str) (i : Z) :
  one_based_index ratio w wordlist = inl i <->
  exists k, list_index w wordlist = Some k /\ i = Z.of_nat k + 1.
Proof.
  unfold one_based_index. destruct (list_index w wordlist) as [k|].
  - split.
    + intros H; injection H as <-. exists k; auto.
    + intros (k' & E & ->). injection E as ->. reflexivity.
  - split; [discriminate | intros (k & E & _); discriminate].
Qed.

Lemma good_empty : good ratio wordlist empty_session.
Proof. split; simpl; [unfold MAX_WORDS; lia | constructor]. Qed.

Lemma Forall2_snoc_inv {A B} (R : A -> B -> Prop) l1 l2 x y :
  Forall2 R (l1 ++ [x]) (l2 ++ [y]) -> Forall2 R l1 l2 /\ R x y.
Proof.
  intros H. apply Forall2_app_inv_l in H.
  destruct H as (a & b & H1 & H2 & E).
  inversion H2 as [|x' y' t t' Hxy Ht]; subst. inversion Ht; subst.
  apply app_inj_tail in E. destruct E as [-> ->]. auto.
Qed.

Lemma next_good (st : session) (raw : str) :
  good ratio wordlist st -> (length (words st) < MAX_WORDS)%nat ->
  exists st', next ratio wordlist st raw = inr st' /\ good ratio wordlist st'.
Proof.
  intros [Hlen HF] Hlt. unfold next.
  destruct (is_undo raw) eqn:U.
  - destruct (pop (words st)) as [[w ws]|] eqn:Pw.
    + apply pop_Some in Pw.
      destruct (pop (indices st)) as [[i ix]|] eqn:Pi.
      * apply pop_Some in Pi. eexists; split; [reflexivity|].
        rewrite Pw, Pi in HF. apply Forall2_snoc_inv in HF.
        split; simpl; [|tauto].
        rewrite Pw, length_app in Hlen. simpl in Hlen. lia.
      * apply pop_None in Pi. rewrite Pw, Pi in HF.
        apply Forall2_length in HF. rewrite length_app in HF.
        simpl in HF. lia.
    + eexists; split; [reflexivity|]. split; assumption.
  - destruct (str_eqb raw []) eqn:E.
    + eexists; split; [reflexivity|]. split; assumption.
    + destruct (one_based_index ratio raw wordlist) as [idx|msg] eqn:R.
      * eexists; split; [reflexivity|]. split; simpl.
        -- rewrite length_app. simpl. lia.
        -- apply Forall2_app; [assumption|]. constructor; [|constructor].
           repeat split; try assumption. apply str_eqb_neq; assumption.
      * eexists; split; [reflexivity|]. split; assumption.
Qed.

(** The loop keeps the invariant, and never ends on an IndexError. *)
Lemma session_loop_good (stdin : list str) :
  forall st o st' r,
    good ratio wordlist st ->
    session_loop ratio wordlist st stdin = (o, st', r) ->
    good ratio wordlist st'
    /\ match r with
       | inr _ => length (words st') = MAX_WORDS
       | inl e => e = EOFError /\ (length (words st') < MAX_WORDS)%nat
       end.
Proof.
  induction stdin as [|line rest IH]; intros st o st' r G; simpl.
  - destruct (length (words st) <? MAX_WORDS)%nat eqn:L.
    + intros H; injection H as <- <- <-. apply Nat.ltb_lt in L. auto.
    + intros H; injection H as <- <- <-. apply Nat.ltb_ge in L.
      split; [assumption|]. destruct G; lia.
  - destruct (length (words st) <? MAX_WORDS)%nat eqn:L.
    + apply Nat.ltb_lt in L.
      destruct (next_good st (lower (strip line)) G L) as (st1 & N & G1).
      rewrite <- loop_body_next in N.
      destruct (loop_body ratio wordlist st line) as [o1 r1].
      simpl in N; subst r1.
      destruct (session_loop ratio wordlist st1 rest) as [[o2 st2] r2] eqn:S.
      intros H; injection H as <- <- <-.
      apply (IH st1 o2 st2 r2 G1 S).
    + intros H; injection H as <- <- <-. apply Nat.ltb_ge in L.
      split; [assumption|]. destruct G; lia.
Qed.

End LoopFacts.

(** ** C2: the session invariant *)

(** C2. Start the loop on the empty session and feed it any sequence of
    lines. The session it stops in holds between 0 and 24 words, with as
    many indices. In that session one more iteration changes the two
    lists in one of two ways only: on [back] or [undo] with at least one
    entry held it removes the last word and the last index; on a word
    that resolves it appends the word and its index. [back] or [undo]
    with nothing held, an empty line, and a word that does not resolve
    leave the session as it is. *)
Theorem C2_session_bounded_append_or_pop
  (ratio : str -> str -> Q) (wordlist stdin : list str)
  (o : list event) (st : session) (r : exn + list str) :
  session_loop ratio wordlist empty_session stdin = (o, st, r) ->
  (0 <= length (words st) <= 24)%nat
  /\ length (indices st) = length (words st)
  /\ forall line,
       let raw := lower (strip line) in
       let after := snd (loop_body ratio wordlist st line) in
       (is_undo raw = true <-> raw = lit "back" \/ raw = lit "undo")
       /\ (is_undo raw = true -> words st = [] -> after = inr st)
       /\ (is_undo raw = true -> forall ws w, words st = ws ++ [w] ->
             exists ix i, indices st = ix ++ [i]
                          /\ after = inr {| words := ws; indices := ix |})
       /\ (raw = [] -> after = inr st)
       /\ (is_undo raw = false -> raw <> [] -> forall msg,
             one_based_index ratio raw wordlist = inr msg -> after = inr st)
       /\ (is_undo raw = false -> raw <> [] -> forall idx1,
             one_based_index ratio raw wordlist = inl idx1 ->
             after = inr {| words := words st ++ [raw];
                            indices := indices st ++ [idx1] |}).
Proof.
  intros H.
  destruct (session_loop_good ratio wordlist stdin _ _ _ _
              (good_empty ratio wordlist) H) as [[Hlen HF] _].
  pose proof (Forall2_length HF) as HL.
  split; [unfold MAX_WORDS in Hlen; lia|]. split; [lia|].
  intros line raw after. unfold after. rewrite loop_body_next. fold raw.
  split; [apply is_undo_iff|]. unfold next.
  split; [|split; [|split; [|split]]].
  - intros -> E. rewrite E. reflexivity.
  - intros -> ws w E.
    destruct (indices st) as [|i0 ix0] eqn:Ei using rev_ind.
    + rewrite E, length_app in HL. simpl in HL. lia.
    + exists ix0, i0. split; [reflexivity|].
      rewrite E, !pop_app. reflexivity.
  - intros ->. reflexivity.
  - intros -> Hne msg ->. apply str_eqb_neq in Hne. rewrite Hne. reflexivity.
  - intros -> Hne idx1 ->. apply str_eqb_neq in Hne. rewrite Hne. reflexivity.
Qed.

(** ** C4: a word that is not listed *)

(** C4. For a word that is not in the word list, [one_based_index]
    returns no index: it raises the ValueError whose message is built from
    the suggestions of [get_close_matches]. The suggestions, if any, are
    entries of the word list, at most 3 of them, and each scores at least
    0.75. The call changes nothing: the iteration of the loop that made it
    leaves the session as it was. *)
Theorem C4_unlisted_word_raises
  (ratio : str -> str -> Q) (w : str) (wordlist : list str) :
  ~ In w wordlist ->
  let hint := get_close_matches ratio w wordlist 3 (3 # 4) in
  one_based_index ratio w wordlist = inr (not_found_msg w hint)
  /\ (forall i, one_based_index ratio w wordlist <> inl i)
  /\ (forall x, In x hint ->
        In x wordlist /\ Qle_bool (3 # 4) (ratio x w) = true)
  /\ (length hint <= 3)%nat
  /\ (forall st line,
        lower (strip line) = w -> is_undo w = false ->
        snd (loop_body ratio wordlist st line) = inr st).
Proof.
  intros Hnot hint. apply list_index_None in Hnot.
  assert (E : one_based_index ratio w wordlist = inr (not_found_msg w hint)).
  { unfold one_based_index. rewrite Hnot. reflexivity. }
  split; [exact E|]. split; [intros i; rewrite E; discriminate|].
  split; [intros x; apply get_close_matches_In|].
  split; [apply get_close_matches_length|].
  intros st line <- U. rewrite loop_body_next. unfold next.
  rewrite U, E. destruct (str_eqb _ []); reflexivity.
Qed.

(** ** Facts on [strip] *)

Lemma lstrip_clean (s : str) : starts_clean (lstrip s).
Proof.
  induction s as [|c s IH]; simpl; [exact I|].
  destruct (is_space c) eqn:E; [exact IH | exact E].
Qed.

Lemma lstrip_id (s : str) : starts_clean s -> lstrip s = s.
Proof. destruct s as [|c s]; simpl; [reflexivity | intros ->; reflexivity]. Qed.

Lemma lstrip_suffix (s : str) :
  exists ws, s = ws ++ lstrip s /\ forallb is_space ws = true.
Proof.
  induction s as [|c s (ws & E & F)]; simpl.
  - exists []; auto.
  - destruct (is_space c) eqn:C.
    + exists (c :: ws). simpl. rewrite C, F, <- E. auto.
    + exists []; auto.
Qed.

Lemma lstrip_spaces (ws s : str) :
  forallb is_space ws = true -> lstrip (ws ++ s) = lstrip s.
Proof.
  induction ws as [|c ws IH]; simpl; [reflexivity|].
  intros H. apply andb_true_iff in H. destruct H as [-> H]. auto.
Qed.

Lemma forallb_rev {A} (f : A -> bool) (l : list A) :
  forallb f (rev l) = forallb f l.
Proof.
  induction l as [|x l IH]; simpl; [reflexivity|].
  rewrite forallb_app, IH. simpl. rewrite andb_true_r, andb_comm.
  reflexivity.
Qed.

Lemma rstrip_spaces (s ws : str) :
  forallb is_space ws = true -> rstrip (s ++ ws) = rstrip s.
Proof.
  intros H. unfold rstrip. rewrite rev_app_distr, lstrip_spaces;
    [reflexivity | rewrite forallb_rev; assumption].
Qed.

Lemma rstrip_prefix (s : str) :
  exists ws, s = rstrip s ++ ws /\ forallb is_space ws = true.
Proof.
  destruct (lstrip_suffix (rev s)) as (ws & E & F).
  exists (rev ws). rewrite forallb_rev. split; [|assumption].
  unfold rstrip. rewrite <- rev_app_distr, <- E, rev_involutive. reflexivity.
Qed.

Lemma rstrip_id (s : str) : starts_clean (rev s) -> rstrip s = s.
Proof.
  intros H. unfold rstrip. rewrite lstrip_id by assumption.
  apply rev_involutive.
Qed.

Lemma rstrip_ends_clean (s : str) : starts_clean (rev (rstrip s)).
Proof. unfold rstrip. rewrite rev_involutive. apply lstrip_clean. Qed.

Lemma rstrip_starts_clean (s : str) :
  starts_clean s -> starts_clean (rstrip s).
Proof.
  destruct (rstrip_prefix s) as (ws & E & _).
  destruct (rstrip s) as [|c r]; [intros; exact I|].
  rewrite E. simpl. auto.
Qed.

(** A stripped string has no whitespace left at either end. *)
Lemma strip_clean (s : str) :
  starts_clean (strip s) /\ starts_clean (rev (strip s)).
Proof.
  unfold strip. split.
  - apply rstrip_starts_clean, lstrip_clean.
  - apply rstrip_ends_clean.
Qed.

Lemma strip_id (s : str) :
  starts_clean s -> starts_clean (rev s) -> strip s = s.
Proof.
  intros A B. unfold strip. rewrite (lstrip_id s A). apply rstrip_id, B.
Qed.

Lemma strip_strip (s : str) : strip (strip s) = strip s.
Proof. destruct (strip_clean s). apply strip_id; assumption. Qed.

Lemma lstrip_all_spaces (ws : str) :
  forallb is_space ws = true -> lstrip ws = [].
Proof.
  intros H. rewrite <- (app_nil_r ws), lstrip_spaces by assumption.
  reflexivity.
Qed.

(** Whitespace around a line does not change what [strip] gives. *)
Lemma strip_padding (w1 s w2 : str) :
  forallb is_space w1 = true -> forallb is_space w2 = true ->
  strip (w1 ++ s ++ w2) = strip s.
Proof.
  intros H1 H2. unfold strip. rewrite lstrip_spaces by assumption.
  clear w1 H1. induction s as [|c s IH]; simpl.
  - rewrite lstrip_all_spaces by assumption. reflexivity.
  - destruct (is_space c); [exact IH|].
    change (c :: s ++ w2) with ((c :: s) ++ w2).
    apply rstrip_spaces; assumption.
Qed.

(** ** C6 and C5: the word-list loader *)

Lemma map_filter_strip (l : list str) :
  map strip (filter (fun w => truthy (strip w)) l)
  = filter truthy (map strip l).
Proof.
  induction l as [|x l IH]; simpl; [reflexivity|].
  destruct (truthy (strip x)); simpl; rewrite IH; reflexivity.
Qed.

Lemma load_bip39_eq (f : file) :
  load_bip39 f =
  match content f with
  | None => inl (missing_msg f)
  | Some text =>
      if (length (lines_kept text) =? 2048)%nat then inr (lines_kept text)
      else inl (length_msg (length (lines_kept text)))
  end.
Proof.
  unfold load_bip39, lines_kept, missing_msg, length_msg.
  destruct (content f) as [text|]; [|reflexivity].
  rewrite map_filter_strip.
  destruct (length _ =? 2048)%nat; reflexivity.
Qed.

(** C6. The loader splits the text of the file into lines, strips each
    line, drops the lines that are then empty and keeps the others in
    order. It ends the program with a message, and gives no word list,
    exactly when the file is missing or the lines kept are not 2048;
    otherwise it returns the lines kept. *)
Theorem C6_loader_contract (f : file) :
  load_bip39 f =
    match content f with
    | None => inl (missing_msg f)
    | Some text =>
        if (length (lines_kept text) =? 2048)%nat then inr (lines_kept text)
        else inl (length_msg (length (lines_kept text)))
    end
  /\ ((exists msg, load_bip39 f = inl msg) <->
      content f = None
      \/ exists text, content f = Some text
                      /\ length (lines_kept text) <> 2048%nat)
  /\ (forall ws, load_bip39 f = inr ws <->
        exists text, content f = Some text
                     /\ length (lines_kept text) = 2048%nat
                     /\ ws = lines_kept text).
Proof.
  split; [apply load_bip39_eq|]. rewrite load_bip39_eq.
  destruct (content f) as [text|].
  - destruct (length (lines_kept text) =? 2048)%nat eqn:L.
    + apply Nat.eqb_eq in L. split.
      * split; [intros [msg H]; discriminate|].
        intros [H|(t & E & N)]; [discriminate|].
        injection E as <-. contradiction.
      * intros ws. split.
        -- intros H; injection H as <-. exists text; auto.
        -- intros (t & E & _ & ->). injection E as ->. reflexivity.
    + apply Nat.eqb_neq in L. split.
      * split; [|eauto]. intros _. right. exists text; auto.
      * intros ws. split; [discriminate|].
        intros (t & E & N & _). injection E as <-. contradiction.
  - split.
    + split; [auto | eauto].
    + intros ws. split; [discriminate | intros (t & E & _); discriminate].
Qed.

Lemma lines_kept_clean (text w : str) :
  In w (lines_kept text) -> w <> [] /\ strip w = w.
Proof.
  unfold lines_kept. rewrite filter_In, in_map_iff.
  intros [(x & <- & _) T]. split.
  - intros E. rewrite E in T. discriminate.
  - apply strip_strip.
Qed.

(** C5, as the code has it. The list the loader returns has exactly 2048
    entries, the lines kept from the file in order, each of them not
    empty and without whitespace at either end; the loader tests neither
    that they are distinct nor their letter case. The list stays as
    loaded for the rest of the run: in whatever session the loop stops,
    each index held is the 1-based position in that list of the first
    occurrence of the word held with it. *)
Theorem C5_loaded_wordlist
  (ratio : str -> str -> Q) (f : file) (wordlist : list str) :
  load_bip39 f = inr wordlist ->
  length wordlist = 2048%nat
  /\ (exists text, content f = Some text /\ wordlist = lines_kept text)
  /\ Forall (fun w => w <> [] /\ strip w = w) wordlist
  /\ (forall stdin o st r,
        session_loop ratio wordlist empty_session stdin = (o, st, r) ->
        Forall2
          (fun w i =>
             exists k, i = Z.of_nat k + 1
                       /\ nth_error wordlist k = Some w
                       /\ (forall j, (j < k)%nat ->
                             nth_error wordlist j <> Some w)
                       /\ 1 <= i <= 2048)
          (words st) (indices st)).
Proof.
  rewrite load_bip39_eq. destruct (content f) as [text|]; [|discriminate].
  destruct (length (lines_kept text) =? 2048)%nat eqn:L; [|discriminate].
  apply Nat.eqb_eq in L. intros H; injection H as <-.
  split; [exact L|]. split; [eauto|].
  split; [apply Forall_forall; intros w; apply lines_kept_clean|].
  intros stdin o st r H.
  destruct (session_loop_good ratio _ stdin _ _ _ _
              (good_empty ratio _) H) as [[_ HF] _].
  revert HF. apply Forall2_impl. intros w i (_ & _ & E).
  apply one_based_index_inl in E. destruct E as (k & E & ->).
  destruct (list_index_Some _ _ _ E) as [A B].
  exists k. repeat split; try assumption; try lia.
  assert (k < length (lines_kept text))%nat
    by (apply nth_error_Some; congruence).
  lia.
Qed.

(** ** C7: how [main] ends *)

Lemma plates_app (a b : list event) : plates (a ++ b) = (plates a + plates b)%nat.
Proof. unfold plates. rewrite filter_app, length_app. reflexivity. Qed.

Lemma dec_head (n : Z) : exists c r, dec n = c :: r /\ c <> NL /\ c <> 32%N.
Proof.
  unfold dec, NilZero.string_of_int.
  destruct (Z.to_int n) as [u|u]; destruct u; simpl;
    do 2 eexists; (split; [reflexivity|]); split; discriminate.
Qed.

Lemma rjust_head (w : nat) (n : Z) (rest : str) :
  exists c r, rjust w (dec n) ++ rest = c :: r /\ c <> NL.
Proof.
  destruct (dec_head n) as (c & r & E & N & _). unfold rjust, spaces.
  destruct (w - length (dec n))%nat as [|k]; simpl.
  - rewrite E. simpl. eauto.
  - do 2 eexists. split; [reflexivity | discriminate].
Qed.

Lemma not_title_by_head (c : N) (r : str) :
  c <> NL -> is_plate_title (Print (c :: r)) = false.
Proof.
  intros H. unfold is_plate_title. cbv zeta.
  change (length (NL :: lit "=== PLATE ")) with 11%nat.
  rewrite firstn_cons.
  change (str_eqb (c :: firstn 10 r) (NL :: lit "=== PLATE "))
    with (N.eqb c NL && str_eqb (firstn 10 r) (lit "=== PLATE ")).
  apply N.eqb_neq in H. rewrite H. reflexivity.
Qed.

Lemma plates_cons (ev : event) (l : list event) :
  plates (ev :: l)
  = ((if is_plate_title ev then 1 else 0) + plates l)%nat.
Proof. unfold plates. cbn [filter]. destruct (is_plate_title ev); reflexivity. Qed.

Lemma plates_rows (block : list Z) (start : Z) :
  plates (map (fun '(r, idx1) => Print (plate_row r idx1))
            (enumerate block start)) = 0%nat.
Proof.
  revert start. induction block as [|i block IH]; intros start;
    [reflexivity|].
  cbn [enumerate map]. rewrite plates_cons, IH. unfold plate_row.
  destruct (rjust_head 3 start
              (lit " |" ++ join (lit " ") (map (mark i) POWERS_DESC)
               ++ lit "  (" ++ dec i ++ lit ")")) as (c & r & E & N).
  rewrite E, (not_title_by_head c r N). reflexivity.
Qed.

Lemma plates_render (block : list Z) (plate_no start : Z) :
  plates (render_plate_rotated block plate_no start) = 1%nat.
Proof.
  unfold render_plate_rotated. rewrite plates_app, plates_rows.
  rewrite !plates_cons.
  replace (is_plate_title (Print (plate_title block plate_no start)))
    with true by (symmetry; unfold plate_title; apply str_eqb_refl).
  reflexivity.
Qed.

Lemma plates_summary (st : session) : plates (summary st) = 0%nat.
Proof.
  unfold summary. rewrite plates_cons.
  replace (is_plate_title (Print ([NL] ++ lit "=== SUMMARY (24 words) ===")))
    with false by reflexivity.
  generalize (combine (words st) (indices st)) 1.
  induction l as [|[w i] l IH]; intros n; [reflexivity|].
  cbn [enumerate map]. rewrite plates_cons. unfold summary_row.
  destruct (rjust_head 2 n
              (lit ". " ++ ljust 10 w ++ lit " -> " ++ rjust 4 (dec i)
               ++ lit "   rows: " ++ repr_list (rows_to_punch i)))
    as (c & r & E & N).
  rewrite E, (not_title_by_head c r N). apply IH.
Qed.

Section MainFacts.

Variable ratio : str -> str -> Q.

Lemma plates_loop_body (wordlist : list str) (st : session) (line : str) :
  plates (fst (loop_body ratio wordlist st line)) = 0%nat.
Proof.
  unfold loop_body.
  destruct (is_undo (lower (strip line))).
  - destruct (pop (words st)) as [[w ws]|]; [|reflexivity].
    destruct (pop (indices st)) as [[i ix]|]; reflexivity.
  - destruct (str_eqb (lower (strip line)) []); [reflexivity|].
    unfold one_based_index.
    destruct (list_index (lower (strip line)) wordlist); [reflexivity|].
    cbn [fst]. rewrite !plates_cons. cbn [is_plate_title].
    unfold not_found_msg.
    destruct (get_close_matches ratio (lower (strip line)) wordlist 3 (3 # 4));
      reflexivity.
Qed.

Lemma plates_session_loop (wordlist stdin : list str) :
  forall st o st' r,
    session_loop ratio wordlist st stdin = (o, st', r) -> plates o = 0%nat.
Proof.
  induction stdin as [|line rest IH]; intros st o st' r; simpl.
  - destruct (length (words st) <? MAX_WORDS)%nat;
      intros H; injection H as <- <- <-; reflexivity.
  - destruct (length (words st) <? MAX_WORDS)%nat;
      [|intros H; injection H as <- <- <-; reflexivity].
    pose proof (plates_loop_body wordlist st line) as P.
    destruct (loop_body ratio wordlist st line) as [o1 [e|st1]].
    + intros H; injection H as <- <- <-. exact P.
    + destruct (session_loop ratio wordlist st1 rest) as [[o2 st2] r2] eqn:S.
      intros H; injection H as <- <- <-.
      rewrite plates_app. simpl in P. rewrite P, (IH _ _ _ _ S). reflexivity.
Qed.

Lemma enumerate_fst {A} (l : list A) (start : Z) :
  map fst (enumerate l start) = range start (start + Z.of_nat (length l)).
Proof.
  unfold range. replace (start + Z.of_nat (length l) - start)
    with (Z.of_nat (length l)) by lia.
  rewrite Nat2Z.id. revert start.
  induction l as [|x l IH]; intros start; [reflexivity|].
  cbn [enumerate map fst length seq]. rewrite IH, <- seq_shift, map_map.
  f_equal; [lia|]. apply map_ext. intros k. lia.
Qed.

(** With 24 accepted lines left to read and room for them, the loop
    takes them all and stops. *)
Lemma session_loop_accepts (wordlist rest lines : list str) :
  forall st,
    Forall (accepted wordlist) lines ->
    (length (words st) + length lines = MAX_WORDS)%nat ->
    exists o st',
      session_loop ratio wordlist st (lines ++ rest) = (o, st', inr rest)
      /\ words st' = words st ++ map (fun l => lower (strip l)) lines.
Proof.
  induction lines as [|line lines IH]; intros st HF Hlen.
  - exists [], st. simpl in Hlen. rewrite app_nil_r. split; [|reflexivity].
    assert (L : (length (words st) <? MAX_WORDS)%nat = false)
      by (apply Nat.ltb_ge; lia).
    destruct rest; simpl; rewrite L; reflexivity.
  - inversion HF as [|? ? (U & Hne & Hin) HF']; subst.
    simpl in Hlen.
    assert (L : (length (words st) <? MAX_WORDS)%nat = true)
      by (apply Nat.ltb_lt; lia).
    destruct (list_index (lower (strip line)) wordlist) as [k|] eqn:K;
      [|apply list_index_None in K; contradiction].
    pose proof (loop_body_next ratio wordlist st line) as N.
    unfold next in N. apply str_eqb_neq in Hne.
    unfold one_based_index in N. rewrite U, Hne, K in N.
    set (st1 := {| words := words st ++ [lower (strip line)];
                   indices := indices st ++ [Z.of_nat k + 1] |}) in N.
    destruct (IH st1 HF') as (o2 & st2 & S & W).
    { simpl. rewrite length_app. simpl. lia. }
    destruct (loop_body ratio wordlist st line) as [o1 r1] eqn:B.
    simpl in N. subst r1.
    exists (o1 ++ o2), st2. split.
    + simpl. rewrite L, B, S. reflexivity.
    + rewrite W. simpl. rewrite <- app_assoc. reflexivity.
Qed.

(** C7. [main] ends in one of three ways. It returns only after the loop
    has stopped with exactly 24 words and 24 indices held; then it has
    printed the banner, the output of the loop, the summary and exactly
    two plates: plate 1 for the first 12 indices, its rows numbered 1 to
    12, then plate 2 for the last 12 indices, its rows numbered 13 to 24.
    Otherwise either the loader ended the program before anything was
    printed, or standard input ran out with fewer than 24 words held and
    [input] raised EOFError; no plate is printed then. And [main] does
    return: on a word list that loads and 24 lines that are accepted, it
    holds these 24 words and prints the two plates, whatever follows on
    standard input. *)
Theorem C7_main_returns_only_when_complete :
  (forall (f : file) (stdin : list str) (out : list event) (e : ending),
     main ratio f stdin = (out, e) ->
     match e with
     | Returned =>
         exists wordlist o st rest,
           load_bip39 f = inr wordlist
           /\ session_loop ratio wordlist empty_session stdin
              = (o, st, inr rest)
           /\ length (words st) = 24%nat /\ length (indices st) = 24%nat
           /\ out = Print banner :: o ++ summary st
                    ++ render_plate_rotated (firstn 12 (indices st)) 1 1
                    ++ render_plate_rotated (skipn 12 (indices st)) 2 13
           /\ length (firstn 12 (indices st)) = 12%nat
           /\ length (skipn 12 (indices st)) = 12%nat
           /\ map fst (enumerate (firstn 12 (indices st)) 1) = range 1 13
           /\ map fst (enumerate (skipn 12 (indices st)) 13) = range 13 25
           /\ plates out = 2%nat
     | SysExit a =>
         exists msg, a = inl msg /\ load_bip39 f = inl msg /\ out = []
     | Raised x =>
         x = EOFError /\ plates out = 0%nat
         /\ exists wordlist o st,
              load_bip39 f = inr wordlist
              /\ session_loop ratio wordlist empty_session stdin
                 = (o, st, inl EOFError)
              /\ (length (words st) < 24)%nat
     end)
  /\ (forall (f : file) (wordlist lines rest : list str),
        load_bip39 f = inr wordlist ->
        length lines = 24%nat ->
        Forall (accepted wordlist) lines ->
        exists o st,
          session_loop ratio wordlist empty_session (lines ++ rest)
          = (o, st, inr rest)
          /\ words st = map (fun l => lower (strip l)) lines
          /\ main ratio f (lines ++ rest)
             = (Print banner :: o ++ report st, Returned)).
Proof.
  split.
  - intros f stdin out e. unfold main.
    destruct (load_bip39 f) as [msg|wordlist] eqn:L.
    + intros H; injection H as <- <-. exists msg; auto.
    + destruct (session_loop ratio wordlist empty_session stdin)
        as [[o st] [x|rest]] eqn:S.
      * intros H; injection H as <- <-.
        destruct (session_loop_good ratio wordlist stdin _ _ _ _
                    (good_empty ratio wordlist) S) as [_ [-> Hlt]].
        split; [reflexivity|]. split.
        -- rewrite plates_cons, (plates_session_loop _ _ _ _ _ _ S).
           reflexivity.
        -- exists wordlist, o, st. auto.
      * intros H; injection H as <- <-.
        destruct (session_loop_good ratio wordlist stdin _ _ _ _
                    (good_empty ratio wordlist) S) as [[_ HF] Hw].
        apply Forall2_length in HF. unfold MAX_WORDS in Hw.
        assert (Hi : length (indices st) = 24%nat) by lia.
        assert (H1 : length (firstn 12 (indices st)) = 12%nat)
          by (rewrite length_firstn; lia).
        assert (H2 : length (skipn 12 (indices st)) = 12%nat)
          by (rewrite length_skipn; lia).
        exists wordlist, o, st, rest. unfold report, PLATE_ROWS.
        repeat split; try assumption.
        -- rewrite enumerate_fst, H1. reflexivity.
        -- rewrite enumerate_fst, H2. reflexivity.
        -- rewrite plates_cons, !plates_app, !plates_render, plates_summary,
             (plates_session_loop _ _ _ _ _ _ S).
           reflexivity.
  - intros f wordlist lines rest L Hlen HF.
    destruct (session_loop_accepts wordlist rest lines empty_session HF)
      as (o & st & S & W); [simpl; unfold MAX_WORDS; lia|].
    exists o, st. split; [exact S|]. split; [exact W|].
    unfold main. rewrite L, S. reflexivity.
Qed.

End MainFacts.

(** ** C8: the plate renderer *)

Lemma mark_decomposition (idx1 p : Z) :
  In p POWERS_DESC ->
  mark idx1 p
  = if in_dec Z.eq_dec p (rows_to_punch idx1) then FILLED else EMPTY.
Proof.
  intros Hp. unfold mark.
  destruct (in_dec Z.eq_dec p (rows_to_punch idx1)) as [H|H].
  - apply rows_to_punch_In in H. destruct H as [_ H].
    apply Z.eqb_neq in H. rewrite H. reflexivity.
  - destruct (Z.land idx1 p =? 0) eqn:E; [reflexivity|].
    exfalso. apply H, rows_to_punch_In. split; [assumption|].
    apply Z.eqb_neq; assumption.
Qed.

Lemma enumerate_nth {A} (l : list A) (start : Z) (k : nat) (x : A) :
  nth_error l k = Some x ->
  nth_error (enumerate l start) k = Some (start + Z.of_nat k, x).
Proof.
  revert start k. induction l as [|y l IH]; intros start [|k]; simpl;
    try discriminate.
  - intros H; injection H as ->. f_equal. f_equal. lia.
  - intros H. rewrite (IH (start + 1) k H). f_equal. f_equal. lia.
Qed.

Lemma enumerate_length {A} (l : list A) (start : Z) :
  length (enumerate l start) = length l.
Proof.
  revert start; induction l as [|y l IH]; intros start; simpl;
    [reflexivity | rewrite IH; reflexivity].
Qed.

(** C8. For every block of indices (of 12 in particular),
    [render_plate_rotated] prints the title, the header row with the
    twelve weights 2048..1 in descending order, a rule, and then exactly
    one row per index, in the order of the block. The row of the [k]-th
    index carries the word number [start_word_no + k] and the index
    itself, and under each weight the filled mark if the weight is in
    [rows_to_punch] of the index and the empty mark if it is not. What is
    printed is a function of the three arguments. *)
Theorem C8_render_grid (block_indices : list Z) (plate_no start_word_no : Z) :
  exists rows,
    render_plate_rotated block_indices plate_no start_word_no
    = Print (plate_title block_indices plate_no start_word_no)
      :: Print plate_header :: Print plate_rule :: rows
    /\ plate_header
       = lit "     2048 1024  512  256  128   64   32   16    8    4    2    1"
    /\ length rows = length block_indices
    /\ (length block_indices = 12%nat -> length rows = 12%nat)
    /\ (forall k idx1,
          nth_error block_indices k = Some idx1 ->
          nth_error rows k
          = Some (Print (plate_row (start_word_no + Z.of_nat k) idx1)))
    /\ (forall r idx1,
          plate_row r idx1
          = rjust 3 (dec r) ++ lit " |"
            ++ join (lit " ")
                 (map (fun p =>
                         if in_dec Z.eq_dec p (rows_to_punch idx1)
                         then FILLED else EMPTY) POWERS_DESC)
            ++ lit "  (" ++ dec idx1 ++ lit ")")
    /\ FILLED <> EMPTY.
Proof.
  eexists. split; [reflexivity|].
  split; [vm_compute; reflexivity|].
  assert (L : length
                (map (fun '(r, idx1) => Print (plate_row r idx1))
                   (enumerate block_indices start_word_no))
              = length block_indices)
    by (rewrite length_map; apply enumerate_length).
  split; [exact L|]. split; [intros <-; exact L|].
  split; [|split].
  - intros k idx1 H.
    rewrite nth_error_map, (enumerate_nth _ start_word_no _ _ H).
    reflexivity.
  - intros r idx1. unfold plate_row. cbv zeta.
    rewrite (map_ext_in _ _ _ (mark_decomposition idx1)). reflexivity.
  - discriminate.
Qed.

(** ** Facts on [lower], read off its tables *)

Lemma settled_spec (d : N) : settled d = true -> lower_full d = [d].
Proof.
  unfold settled, lower_full.
  destruct (lookup_lower d lower_ranges); [discriminate|].
  intros H. apply negb_true_iff in H. rewrite H. reflexivity.
Qed.

Lemma lookup_lower_pairs (c d : N) (t : list (N * N * N * N)) :
  forallb (fun e => negb (snd (fst e) =? 0)%N) t = true ->
  lookup_lower c t = Some d -> In (c, d) (table_pairs t).
Proof.
  induction t as [|[[[lo hi] step] target] t IH]; [discriminate|].
  cbn [forallb lookup_lower table_pairs flat_map fst snd].
  intros Hs. apply andb_true_iff in Hs. destruct Hs as [Hstep Hs].
  apply negb_true_iff, N.eqb_neq in Hstep.
  destruct ((lo <=? c) && (c <=? hi) && ((c - lo) mod step =? 0))%N eqn:E.
  - intros H; injection H as <-. apply in_or_app; left.
    rewrite !andb_true_iff, !N.leb_le, N.eqb_eq in E.
    destruct E as [[Hlo Hhi] Hm].
    pose proof (N.div_mod (c - lo) step Hstep) as D. rewrite Hm in D.
    assert (Q : ((c - lo) / step <= (hi - lo) / step)%N)
      by (apply N.Div0.div_le_mono; lia).
    apply in_map_iff. exists (N.to_nat ((c - lo) / step)). split.
    + rewrite N2Nat.id, (N.mul_comm _ step). f_equal; lia.
    + apply in_seq. lia.
  - intros H. apply in_or_app; right. apply IH; assumption.
Qed.

Lemma lower_steps :
  forallb (fun e => negb (snd (fst e) =? 0)%N) lower_ranges = true.
Proof. vm_compute. reflexivity. Qed.

Lemma lower_pairs_ok : forallb pair_ok (table_pairs lower_ranges) = true.
Proof. vm_compute. reflexivity. Qed.

(** The three ways [lower_full] goes. *)
Lemma lower_full_cases (c : N) :
  (c = 304%N /\ lower_full c = [105; 775]%N)
  \/ (exists d, lower_full c = [d] /\ pair_ok (c, d) = true)
  \/ lower_full c = [c].
Proof.
  unfold lower_full. destruct (N.eqb_spec c 304) as [->|Hc]; [left; auto|].
  right. destruct (lookup_lower c lower_ranges) as [d|] eqn:L;
    [left | right; reflexivity].
  exists d. split; [reflexivity|].
  pose proof lower_pairs_ok as A. rewrite forallb_forall in A.
  apply A, lookup_lower_pairs; [apply lower_steps | exact L].
Qed.

Lemma pair_ok_spec (c d : N) :
  pair_ok (c, d) = true ->
  lower_full d = [d] /\ is_space c = false /\ is_space d = false
  /\ is_cased c = is_cased d
  /\ is_case_ignorable c = is_case_ignorable d.
Proof.
  unfold pair_ok. cbn [fst snd].
  rewrite !andb_true_iff, !negb_true_iff.
  intros ((((S & A) & B) & C) & D).
  apply settled_spec in S. apply eqb_prop in C, D. auto.
Qed.

(** What [lower_full] gives is lowercase already, and is no capital
    sigma. *)
Lemma lower_full_settled (c d : N) :
  In d (lower_full c) -> lower_full d = [d] /\ d <> 931%N.
Proof.
  intros H.
  assert (S : lower_full d = [d]).
  { destruct (lower_full_cases c) as [[_ E]|[(d' & E & P)|E]]; rewrite E in H.
    - destruct H as [<-|[<-|[]]]; vm_compute; reflexivity.
    - destruct H as [<-|[]]. apply (pair_ok_spec c d' P).
    - destruct H as [<-|[]]. exact E. }
  split; [exact S|]. intros ->. vm_compute in S. discriminate.
Qed.

Lemma lower_full_no_space (c d : N) :
  is_space c = false -> In d (lower_full c) -> is_space d = false.
Proof.
  intros Hc H.
  destruct (lower_full_cases c) as [[_ E]|[(d' & E & P)|E]]; rewrite E in H.
  - destruct H as [<-|[<-|[]]]; reflexivity.
  - destruct H as [<-|[]]. apply (pair_ok_spec c d' P).
  - destruct H as [<-|[]]. exact Hc.
Qed.

Lemma lower_full_not_nil (c : N) : lower_full c <> [].
Proof.
  destruct (lower_full_cases c) as [[_ E]|[(d' & E & P)|E]]; rewrite E;
    discriminate.
Qed.

(** A code point and its one-point lowercase are in the same classes. *)
Lemma lower_full_single (x y : N) :
  lower_full x = [y] ->
  lower_full y = [y] /\ is_space x = is_space y
  /\ is_cased x = is_cased y
  /\ is_case_ignorable x = is_case_ignorable y.
Proof.
  intros H.
  destruct (lower_full_cases x) as [[_ E]|[(d & E & P)|E]]; rewrite E in H.
  - discriminate.
  - injection H as <-. destruct (pair_ok_spec x d P) as (A & B & C & D & F).
    rewrite B, C. auto.
  - injection H as <-. auto.
Qed.

Lemma sigma_cases (before after : str) :
  handle_capital_sigma before after = 962%N
  \/ handle_capital_sigma before after = 963%N.
Proof.
  unfold handle_capital_sigma.
  destruct (first_significant before) as [c|]; [|auto].
  destruct (is_cased c); [|auto].
  destruct (first_significant after) as [d|]; [|auto].
  destruct (is_cased d); auto.
Qed.

Lemma lowered_settled (before rest : str) (c d : N) :
  In d (lowered before c rest) -> lower_full d = [d] /\ d <> 931%N.
Proof.
  unfold lowered. destruct (c =? 931)%N.
  - intros [<-|[]].
    destruct (sigma_cases before rest) as [-> | ->];
      (split; [vm_compute; reflexivity | discriminate]).
  - apply lower_full_settled.
Qed.

Lemma lowered_no_space (before rest : str) (c d : N) :
  is_space c = false -> In d (lowered before c rest) -> is_space d = false.
Proof.
  unfold lowered. destruct (c =? 931)%N.
  - intros _ [<-|[]].
    destruct (sigma_cases before rest) as [-> | ->]; reflexivity.
  - apply lower_full_no_space.
Qed.

Lemma lowered_not_nil (before rest : str) (c : N) :
  lowered before c rest <> [].
Proof.
  unfold lowered. destruct (c =? 931)%N;
    [discriminate | apply lower_full_not_nil].
Qed.

Lemma lower_from_cons (before rest : str) (c : N) :
  lower_from before (c :: rest)
  = lowered before c rest ++ lower_from (c :: before) rest.
Proof. reflexivity. Qed.

Lemma lower_from_settled (s : str) :
  forall before d,
    In d (lower_from before s) -> lower_full d = [d] /\ d <> 931%N.
Proof.
  induction s as [|c s IH]; intros before d; [intros []|].
  rewrite lower_from_cons. intros H. apply in_app_or in H.
  destruct H as [H|H]; [eapply lowered_settled, H | eapply IH, H].
Qed.

Lemma lower_from_fixed (t : str) :
  (forall d, In d t -> lower_full d = [d] /\ d <> 931%N) ->
  forall before, lower_from before t = t.
Proof.
  induction t as [|d t IH]; intros H before; [reflexivity|].
  rewrite lower_from_cons. unfold lowered.
  destruct (H d (or_introl eq_refl)) as [E N].
  apply N.eqb_neq in N. rewrite N, E. cbn [app]. f_equal.
  apply IH. intros d' Hd'. apply H. right; exact Hd'.
Qed.

(** [lower] is idempotent. *)
Lemma lower_lower (s : str) : lower (lower s) = lower s.
Proof.
  unfold lower. apply lower_from_fixed. intros d.
  apply lower_from_settled.
Qed.

Lemma lower_from_not_nil (s before : str) :
  s <> [] -> lower_from before s <> [].
Proof.
  destruct s as [|c s]; [congruence|]. intros _.
  rewrite lower_from_cons. intros E. apply app_eq_nil in E.
  apply (lowered_not_nil before s c), E.
Qed.

Lemma lower_from_starts_clean (s before : str) :
  starts_clean s -> starts_clean (lower_from before s).
Proof.
  destruct s as [|c s]; [intros; exact I|]. cbn [starts_clean].
  intros Hc. rewrite lower_from_cons.
  destruct (lowered before c s) as [|d l] eqn:E;
    [elim (lowered_not_nil before s c E)|].
  cbn [app starts_clean].
  apply (lowered_no_space before s c d Hc). rewrite E. left; reflexivity.
Qed.

Lemma ends_clean_app (a b : str) :
  b <> [] -> starts_clean (rev b) -> starts_clean (rev (a ++ b)).
Proof.
  intros Hb H. rewrite rev_app_distr.
  destruct (rev b) as [|x r] eqn:E; [|exact H].
  apply (f_equal (@rev N)) in E. rewrite rev_involutive in E. contradiction.
Qed.

Lemma ends_clean_all (l : str) :
  (forall d, In d l -> is_space d = false) -> starts_clean (rev l).
Proof.
  intros H. destruct (rev l) as [|x r] eqn:E; [exact I|].
  cbn [starts_clean]. apply H, in_rev. rewrite E. left; reflexivity.
Qed.

Lemma lower_from_ends_clean (s : str) :
  forall before,
    starts_clean (rev s) -> starts_clean (rev (lower_from before s)).
Proof.
  induction s as [|c s IH]; intros before H; [exact I|].
  rewrite lower_from_cons. destruct s as [|c2 s].
  - cbn [lower_from]. rewrite app_nil_r. apply ends_clean_all.
    intros d. apply lowered_no_space. exact H.
  - apply ends_clean_app; [apply lower_from_not_nil; discriminate|].
    apply IH. cbn [rev] in H |- *.
    destruct (rev s ++ [c2]) as [|x r] eqn:E;
      [destruct (rev s); discriminate|].
    exact H.
Qed.

(** A line, stripped and lowercased, is lowercase and has nothing left to
    strip. *)
Lemma normal_line (line : str) : normal_word (lower (strip line)).
Proof.
  split; [apply lower_lower|].
  destruct (strip_clean line) as [A B]. unfold lower.
  apply strip_id;
    [apply lower_from_starts_clean, A | apply lower_from_ends_clean, B].
Qed.

(** ** Lines that differ in case only *)

Lemma letter_case_variant_sym (x y : N) :
  letter_case_variant x y -> letter_case_variant y x.
Proof. unfold letter_case_variant. intuition auto. Qed.

Lemma case_variant_sym (x y : N) : case_variant x y -> case_variant y x.
Proof.
  intros [H S]. split; [apply letter_case_variant_sym, H | tauto].
Qed.

Lemma case_variant_classes (x y : N) :
  case_variant x y ->
  is_space x = is_space y /\ is_cased x = is_cased y
  /\ is_case_ignorable x = is_case_ignorable y.
Proof.
  intros [[->|[H|H]] _]; [auto| |];
    destruct (lower_full_single _ _ H) as (_ & A & B & C); auto.
Qed.

Lemma case_variant_space (x y : N) :
  case_variant x y -> is_space x = is_space y.
Proof. intros H. apply (case_variant_classes x y H). Qed.

Lemma case_variant_lower_full (x y : N) :
  case_variant x y -> lower_full x = lower_full y.
Proof.
  intros [[->|[H|H]] _]; [reflexivity| |];
    destruct (lower_full_single _ _ H) as (A & _); congruence.
Qed.

Lemma case_variant_first (l1 l2 : str) :
  Forall2 case_variant l1 l2 ->
  match first_significant l1, first_significant l2 with
  | Some a, Some b => is_cased a = is_cased b
  | None, None => True
  | _, _ => False
  end.
Proof.
  induction 1 as [|x y l1 l2 Hxy _ IH]; [exact I|].
  destruct (case_variant_classes x y Hxy) as (_ & C & G).
  cbn [first_significant]. rewrite <- G.
  destruct (is_case_ignorable x); [exact IH | exact C].
Qed.

Lemma case_variant_sigma (b1 b2 a1 a2 : str) :
  Forall2 case_variant b1 b2 -> Forall2 case_variant a1 a2 ->
  handle_capital_sigma b1 a1 = handle_capital_sigma b2 a2.
Proof.
  intros Hb Ha. unfold handle_capital_sigma.
  pose proof (case_variant_first _ _ Hb) as B.
  pose proof (case_variant_first _ _ Ha) as A.
  destruct (first_significant b1), (first_significant b2);
    try contradiction; [|reflexivity].
  rewrite B. destruct (is_cased n0); [|reflexivity].
  destruct (first_significant a1), (first_significant a2);
    try contradiction; [|reflexivity].
  rewrite A. reflexivity.
Qed.

Lemma case_variant_lower_from (s1 s2 : str) :
  Forall2 case_variant s1 s2 ->
  forall b1 b2,
    Forall2 case_variant b1 b2 -> lower_from b1 s1 = lower_from b2 s2.
Proof.
  induction 1 as [|x y s1 s2 Hxy Hs IH]; intros b1 b2 Hb; [reflexivity|].
  rewrite !lower_from_cons. f_equal.
  - unfold lowered. destruct Hxy as [V S].
    destruct (N.eqb_spec x 931) as [Hx|Hx].
    + rewrite (proj2 (N.eqb_eq y 931) (proj1 S Hx)). f_equal.
      apply case_variant_sigma; assumption.
    + assert (Hy : y <> 931%N) by tauto.
      apply N.eqb_neq in Hy. rewrite Hy.
      apply case_variant_lower_full. split; assumption.
  - apply IH. constructor; assumption.
Qed.

Lemma Forall2_rev {A B} (R : A -> B -> Prop) (a : list A) (b : list B) :
  Forall2 R a b -> Forall2 R (rev a) (rev b).
Proof.
  induction 1; simpl; [constructor|].
  apply Forall2_app; [assumption | repeat constructor; assumption].
Qed.

Lemma case_variant_lstrip (a b : str) :
  Forall2 case_variant a b -> Forall2 case_variant (lstrip a) (lstrip b).
Proof.
  induction 1 as [|x y a b Hxy Hab IH]; simpl; [constructor|].
  rewrite <- (case_variant_space x y Hxy).
  destruct (is_space x); [assumption | constructor; assumption].
Qed.

Lemma case_variant_strip (a b : str) :
  Forall2 case_variant a b -> Forall2 case_variant (strip a) (strip b).
Proof.
  intros H. unfold strip, rstrip.
  apply Forall2_rev, case_variant_lstrip, Forall2_rev, case_variant_lstrip, H.
Qed.

Lemma case_variant_lower_str (a b : str) :
  Forall2 case_variant a b -> lower a = lower b.
Proof.
  intros H. unfold lower. apply case_variant_lower_from; [exact H|].
  constructor.
Qed.

Lemma same_line_normal (l1 l2 : str) :
  same_line l1 l2 -> lower (strip l1) = lower (strip l2).
Proof.
  intros (w1 & a & w2 & w3 & b & w4 & -> & -> & S & H).
  rewrite !forallb_app, !andb_true_iff in S.
  destruct S as (S1 & S2 & S3 & S4).
  rewrite !strip_padding by assumption.
  apply case_variant_lower_str, case_variant_strip, H.
Qed.

(** ** C10: lines are stripped and lowercased; commands come first *)

Lemma loop_body_normal
  (ratio : str -> str -> Q) (wordlist : list str) (st : session)
  (l1 l2 : str) :
  lower (strip l1) = lower (strip l2) ->
  loop_body ratio wordlist st l1 = loop_body ratio wordlist st l2.
Proof. intros H. unfold loop_body. rewrite H. reflexivity. Qed.

Lemma removelast_snoc {A} (l : list A) (x : A) : removelast (l ++ [x]) = l.
Proof.
  induction l as [|y l IH]; [reflexivity|].
  simpl. rewrite IH. destruct (l ++ [x]) eqn:E; [|reflexivity].
  destruct l; discriminate.
Qed.

(** C10, as the code has it. The loop strips and lowercases each line
    before it looks at it: two lines that differ only in surrounding
    whitespace, or in the case of letters (a letter against its
    one-code-point lowercase), make the same iteration, output included,
    unless they differ by a capital sigma against a small one: the
    lowercase of a capital sigma depends on its neighbours. The test for
    [back] and [undo] comes before the look-up: a line that is one of
    them in any case, padded or not, never appends (the words held
    afterwards are those held before without the last), also when the
    word list contains [back] or [undo]; and in no session the loop stops
    in is [back] or [undo] a held word. *)
Theorem C10_normalised_lines_and_commands
  (ratio : str -> str -> Q) (wordlist : list str) :
  (forall st l1 l2,
     same_line l1 l2 ->
     lower (strip l1) = lower (strip l2)
     /\ loop_body ratio wordlist st l1 = loop_body ratio wordlist st l2)
  /\ (forall st line cmd,
        cmd = lit "back" \/ cmd = lit "undo" ->
        same_line line cmd ->
        is_undo (lower (strip line)) = true
        /\ forall st',
             snd (loop_body ratio wordlist st line) = inr st' ->
             words st' = removelast (words st))
  /\ (forall stdin o st r,
        session_loop ratio wordlist empty_session stdin = (o, st, r) ->
        ~ In (lit "back") (words st) /\ ~ In (lit "undo") (words st)).
Proof.
  split; [|split].
  - intros st l1 l2 H. apply same_line_normal in H.
    split; [assumption | apply loop_body_normal; assumption].
  - intros st line cmd Hc H. apply same_line_normal in H.
    assert (U : is_undo (lower (strip line)) = true).
    { rewrite H. destruct Hc as [-> | ->]; reflexivity. }
    split; [exact U|]. intros st'. rewrite loop_body_next. unfold next.
    rewrite U. destruct (pop (words st)) as [[w ws]|] eqn:P.
    + apply pop_Some in P.
      destruct (pop (indices st)) as [[i ix]|]; [|discriminate].
      intros E; injection E as <-. simpl. rewrite P.
      symmetry; apply removelast_snoc.
    + apply pop_None in P. intros E; injection E as <-.
      rewrite P; reflexivity.
  - intros stdin o st r H.
    destruct (session_loop_good ratio wordlist stdin _ _ _ _
                (good_empty ratio wordlist) H) as [[_ HF] _].
    assert (G : forall w, In w (words st) -> is_undo w = false).
    { clear H. induction HF as [|w i ws ix [U _] _ IH]; intros w' [].
      - subst; assumption.
      - apply IH; assumption. }
    split; intros Hin; apply G in Hin; discriminate.
Qed.

(** * Worked examples

    Each theorem above that has a hypothesis is applied here to a
    concrete input. *)

Lemma C1_witness :
  1 <= 1234 <= 2048
  /\ Subseq [1024; 128; 64; 16; 2] POWERS_DESC
  /\ py_sum [1024; 128; 64; 16; 2] = 1234
  /\ [1024; 128; 64; 16; 2] = rows_to_punch 1234.
Proof.
  assert (R : 1 <= 1234 <= 2048) by lia.
  assert (S : Subseq [1024; 128; 64; 16; 2] POWERS_DESC)
    by (unfold POWERS_DESC; repeat constructor).
  pose proof (proj1 C1_rows_to_punch_binary 1234 R) as (_ & _ & _ & U & _).
  split; [exact R|]. split; [exact S|]. split; [reflexivity|].
  exact (U _ S eq_refl).
Defined.

Lemma C2_witness :
  let st := {| words := [lit "able"]; indices := [3] |} in
  (exists o r,
     session_loop prefix_ratio small_list empty_session
       [lit "Able"; lit "zoo "; lit "Back"; lit "zzz"] = (o, st, r))
  /\ (0 <= length (words st) <= 24)%nat
  /\ snd (loop_body prefix_ratio small_list st (lit " UNDO"))
     = inr empty_session
  /\ snd (loop_body prefix_ratio small_list st (lit "Zoo"))
     = inr {| words := [lit "able"; lit "zoo"]; indices := [3; 5] |}.
Proof.
  intros st.
  assert (H : exists o r,
             session_loop prefix_ratio small_list empty_session
               [lit "Able"; lit "zoo "; lit "Back"; lit "zzz"] = (o, st, r))
    by (do 2 eexists; vm_compute; reflexivity).
  split; [exact H|]. destruct H as (o & r & H).
  pose proof (C2_session_bounded_append_or_pop prefix_ratio small_list
                _ o st r H) as (A & _ & C).
  split; [exact A|]. split.
  - destruct (C (lit " UNDO")) as (_ & _ & P & _).
    destruct (P eq_refl [] (lit "able") eq_refl) as (ix & i & E & ->).
    destruct ix as [|? [|? ?]]; try discriminate. reflexivity.
  - destruct (C (lit "Zoo")) as (_ & _ & _ & _ & _ & P).
    apply (P eq_refl); [discriminate | reflexivity].
Defined.

Lemma C3_witness :
  exists i : nat,
    one_based_index prefix_ratio (lit "able") small_list = inl (Z.of_nat i + 1)
    /\ i = 2%nat.
Proof.
  assert (H : In (lit "able") small_list) by (right; right; left; reflexivity).
  destruct (C3_index_of_listed_word prefix_ratio (lit "able") small_list H)
    as (i & E & _).
  exists i. split; [exact E|].
  change (one_based_index prefix_ratio (lit "able") small_list)
    with (@inl Z str 3) in E.
  injection E as E. lia.
Defined.

Lemma C4_witness :
  ~ In (lit "abel") small_list
  /\ get_close_matches prefix_ratio (lit "abandom") small_list 3 (3 # 4)
     = [lit "abandon"]
  /\ one_based_index prefix_ratio (lit "abandom") small_list
     = inr (lit "Word 'abandom' not in BIP39 list. Did you mean: abandon?")
  /\ one_based_index prefix_ratio (lit "abel") small_list
     = inr (lit "Word 'abel' not in BIP39 list.").
Proof.
  assert (N1 : ~ In (lit "abel") small_list)
    by (intros H; repeat (destruct H as [H|H]; [discriminate|]); exact H).
  assert (N2 : ~ In (lit "abandom") small_list)
    by (intros H; repeat (destruct H as [H|H]; [discriminate|]); exact H).
  split; [exact N1|]. split; [vm_compute; reflexivity|]. split.
  - exact (proj1 (C4_unlisted_word_raises prefix_ratio _ _ N2)).
  - exact (proj1 (C4_unlisted_word_raises prefix_ratio _ _ N1)).
Defined.

(** C5 as stated fails: the loader accepts a file of 2048 lines that are
    all the capital letter A, and returns a list whose entries are neither
    distinct nor lowercase. *)
Lemma C5_counterexample_capital_file :
  exists wordlist,
    load_bip39 capital_file = inr wordlist
    /\ length wordlist = 2048%nat
    /\ ~ NoDup wordlist
    /\ ~ Forall (fun w => lower w = w) wordlist.
Proof.
  exists (repeat (lit "A") 2048).
  split; [vm_compute; reflexivity|].
  split; [apply repeat_length|].
  change (repeat (lit "A") 2048)
    with (lit "A" :: lit "A" :: repeat (lit "A") 2046).
  split.
  - intros H. apply NoDup_cons_iff in H. destruct H as [H _].
    apply H. left; reflexivity.
  - intros H. apply Forall_inv in H. discriminate.
Qed.

Lemma C5_witness :
  let wordlist := map word_of (range 1 2049) in
  load_bip39 bip_file = inr wordlist
  /\ length wordlist = 2048%nat
  /\ Forall (fun w => w <> [] /\ strip w = w) wordlist.
Proof.
  intros wordlist.
  assert (H : load_bip39 bip_file = inr wordlist) by (vm_compute; reflexivity).
  destruct (C5_loaded_wordlist prefix_ratio bip_file wordlist H)
    as (A & _ & B & _).
  split; [exact H|]. split; [exact A | exact B].
Defined.

Lemma C7_witness :
  exists out,
    main prefix_ratio bip_file typed_lines = (out, Returned)
    /\ plates out = 2%nat.
Proof.
  destruct (main prefix_ratio bip_file typed_lines) as [out e] eqn:M.
  assert (E : e = Returned).
  { change e with (snd (out, e)). rewrite <- M. vm_compute. reflexivity. }
  subst e. exists out. split; [reflexivity|].
  pose proof (proj1 (C7_main_returns_only_when_complete prefix_ratio)
                bip_file typed_lines _ _ M) as (wl & o & st & rest & P).
  apply P.
Defined.

(** C10 as stated fails: the Greek word written in small letters and in
    capitals differs in letter case only, but [lower] gives the capital
    sigma at its end the final form U+03C2, so the two lines are not
    treated alike: on a word list that holds the word in small letters,
    the first line is accepted with index 1 and the second is not
    resolved. *)
Lemma C10_counterexample_final_sigma :
  Forall2 letter_case_variant odos_capital odos_small
  /\ lower (strip odos_small) = [959; 948; 959; 963]%N
  /\ lower (strip odos_capital) = [959; 948; 959; 962]%N
  /\ snd (loop_body prefix_ratio [odos_small] empty_session odos_small)
     = inr {| words := [odos_small]; indices := [1] |}
  /\ snd (loop_body prefix_ratio [odos_small] empty_session odos_capital)
     = inr empty_session
  /\ loop_body prefix_ratio [odos_small] empty_session odos_small
     <> loop_body prefix_ratio [odos_small] empty_session odos_capital.
Proof.
  split.
  - unfold odos_capital, odos_small.
    repeat (apply Forall2_cons; [right; left; vm_compute; reflexivity|]).
    apply Forall2_nil.
  - repeat split; try (vm_compute; reflexivity).
    intros E. apply (f_equal snd) in E. vm_compute in E. discriminate.
Qed.

Lemma C10_witness :
  same_line (lit "  bAcK ") (lit "back")
  /\ same_line ([98; 97; 99; 8490] ++ lit " ")%N (lit "back")
  /\ In (lit "back") small_list
  /\ loop_body prefix_ratio small_list
       {| words := [lit "zoo"]; indices := [5] |} (lit "  bAcK ")
     = loop_body prefix_ratio small_list
         {| words := [lit "zoo"]; indices := [5] |} (lit "back")
  /\ snd (loop_body prefix_ratio small_list
            {| words := [lit "zoo"]; indices := [5] |} (lit "  bAcK "))
     = inr empty_session.
Proof.
  assert (V : forall x y, lower_full x = [y] -> x <> 931%N -> y <> 931%N ->
                          case_variant x y).
  { intros x y E Hx Hy. split; [right; left; exact E | tauto]. }
  assert (I : forall x, case_variant x x).
  { intros x. split; [left; reflexivity | tauto]. }
  assert (S : same_line (lit "  bAcK ") (lit "back")).
  { exists (lit "  "), (lit "bAcK"), (lit " "), [], (lit "back"), [].
    split; [reflexivity|]. split; [reflexivity|]. split; [reflexivity|].
    change (lit "bAcK") with [98; 65; 99; 75]%N.
    change (lit "back") with [98; 97; 99; 107]%N.
    repeat first
      [ apply Forall2_nil
      | apply Forall2_cons;
        [ first [ apply I
                | apply V; [vm_compute; reflexivity | discriminate
                            | discriminate] ] | ] ]. }
  assert (K : same_line ([98; 97; 99; 8490] ++ lit " ")%N (lit "back")).
  { exists [], [98; 97; 99; 8490]%N, (lit " "), [], (lit "back"), [].
    split; [reflexivity|]. split; [reflexivity|]. split; [reflexivity|].
    change (lit "back") with [98; 97; 99; 107]%N.
    repeat first
      [ apply Forall2_nil
      | apply Forall2_cons;
        [ first [ apply I
                | apply V; [vm_compute; reflexivity | discriminate
                            | discriminate] ] | ] ]. }
  destruct (C10_normalised_lines_and_commands prefix_ratio small_list)
    as (A & B & _).
  split; [exact S|]. split; [exact K|].
  split; [right; right; right; left; reflexivity|].
  split; [apply (A _ _ _ S)|].
  destruct (B {| words := [lit "zoo"]; indices := [5] |} _ _
              (or_introl eq_refl) S) as [_ R].
  destruct (snd (loop_body prefix_ratio small_list
                   {| words := [lit "zoo"]; indices := [5] |}
                   (lit "  bAcK "))) as [e|st'] eqn:L.
  - vm_compute in L. discriminate.
  - specialize (R st' eq_refl). vm_compute in L. injection L as <-.
    reflexivity.
Defined.

(** The scenario of the specification: "abandon" is entry 1 and "zoo" is
    entry 2048 of the loaded list. *)
Example scenario_abandon_zoo :
  exists wordlist,
    load_bip39 bip_file = inr wordlist
    /\ one_based_index prefix_ratio (lit "abandon") wordlist = inl 1
    /\ rows_to_punch 1 = [1]
    /\ one_based_index prefix_ratio (lit "zoo") wordlist = inl 2048
    /\ rows_to_punch 2048 = [2048].
Proof.
  exists (map word_of (range 1 2049)).
  repeat split; vm_compute; reflexivity.
Qed.

(** Python's [splitlines], [strip] and [lower] on small inputs. *)
Example scenario_strings :
  splitlines (lit "a" ++ [13; 10] ++ lit "b" ++ [13; 10; 10] ++ lit "c" ++ [10])%N
  = [lit "a"; lit "b"; []; lit "c"]
  /\ strip ([32; 9] ++ lit "a b" ++ [160; 10])%N = lit "a b"
  /\ lower (lit "AbZ[@") = lit "abz[@".
Proof. repeat split; reflexivity. Qed.

(** * Further properties *)

(** ** The decomposer outside 1..2048 *)

Lemma land_low_bits (idx p : Z) :
  In p POWERS_DESC -> Z.land (idx mod 4096) p = Z.land idx p.
Proof.
  intros Hp. change 4096 with (2 ^ 12).
  rewrite <- Z.land_ones, <- Z.land_assoc by lia. f_equal.
  unfold POWERS_DESC in Hp. simpl in Hp.
  repeat (destruct Hp as [<-|Hp]; [reflexivity|]). contradiction.
Qed.

Lemma rows_to_punch_mod (idx : Z) :
  rows_to_punch idx = rows_to_punch (idx mod 4096).
Proof.
  unfold rows_to_punch. apply filter_ext_in. intros p Hp.
  rewrite land_low_bits by assumption. reflexivity.
Qed.

Lemma sum_check_low :
  forallb (fun i => py_sum (rows_to_punch i) =? i) (range 0 4096) = true.
Proof. vm_compute. reflexivity. Qed.

Lemma rows_to_punch_sum_low (idx : Z) :
  0 <= idx < 4096 -> py_sum (rows_to_punch idx) = idx.
Proof.
  intros H. pose proof sum_check_low as A.
  rewrite forallb_forall in A.
  apply Z.eqb_eq, A, range_In. lia.
Qed.

(** X1. [rows_to_punch] accepts every integer and looks at its 12 low
    bits only: the weights returned are those of [idx mod 4096] and sum
    to [idx mod 4096]. So the sum gives the index back exactly for the
    indices 0..4095, and the list is empty exactly for the multiples of
    4096, zero among them. *)
Theorem X1_rows_to_punch_low_bits (idx : Z) :
  rows_to_punch idx = rows_to_punch (idx mod 4096)
  /\ py_sum (rows_to_punch idx) = idx mod 4096
  /\ (py_sum (rows_to_punch idx) = idx <-> 0 <= idx < 4096)
  /\ (rows_to_punch idx = [] <-> idx mod 4096 = 0).
Proof.
  assert (M : 0 <= idx mod 4096 < 4096) by (apply Z.mod_pos_bound; lia).
  assert (S : py_sum (rows_to_punch idx) = idx mod 4096)
    by (rewrite rows_to_punch_mod; apply rows_to_punch_sum_low, M).
  split; [apply rows_to_punch_mod|]. split; [exact S|]. split.
  - rewrite S. split.
    + intros E. rewrite <- E. exact M.
    + intros H. apply Z.mod_small. exact H.
  - split.
    + intros E. rewrite <- S, E. reflexivity.
    + intros E. rewrite rows_to_punch_mod, E. reflexivity.
Qed.

(** X2. The punch pattern determines the index up to a multiple of 4096:
    two indices get the same weights, and the same row of marks on the
    plate, exactly when they agree modulo 4096. Indices in 0..4095, and
    so the positions 1..2048 of a word list, are told apart by their
    rows. *)
Theorem X2_punch_pattern_decodes (a b : Z) :
  (rows_to_punch a = rows_to_punch b <-> a mod 4096 = b mod 4096)
  /\ (map (mark a) POWERS_DESC = map (mark b) POWERS_DESC
      <-> a mod 4096 = b mod 4096)
  /\ (0 <= a < 4096 -> 0 <= b < 4096 ->
      map (mark a) POWERS_DESC = map (mark b) POWERS_DESC -> a = b).
Proof.
  assert (R : rows_to_punch a = rows_to_punch b <-> a mod 4096 = b mod 4096).
  { split.
    - intros E.
      rewrite <- (rows_to_punch_sum_low (a mod 4096)),
              <- (rows_to_punch_sum_low (b mod 4096))
        by (apply Z.mod_pos_bound; lia).
      rewrite <- !rows_to_punch_mod, E. reflexivity.
    - intros E. rewrite (rows_to_punch_mod a), (rows_to_punch_mod b), E.
      reflexivity. }
  assert (K : map (mark a) POWERS_DESC = map (mark b) POWERS_DESC
              <-> a mod 4096 = b mod 4096).
  { rewrite <- R. unfold rows_to_punch. split.
    - intros E. apply filter_ext_in. intros p Hp.
      pose proof (proj1 map_ext_in_iff E p Hp) as Ep. unfold mark in Ep.
      destruct (negb (Z.land a p =? 0)), (negb (Z.land b p =? 0));
        try reflexivity; discriminate.
    - intros E. apply map_ext_in. intros p Hp. unfold mark.
      pose proof (proj1 (filter_ext_in_iff _ _ _) E p Hp) as Ep.
      cbv beta in Ep. rewrite Ep. reflexivity. }
  split; [exact R|]. split; [exact K|].
  intros Ha Hb E. apply K in E.
  rewrite !Z.mod_small in E by assumption. exact E.
Qed.

Lemma X2_witness :
  0 <= 5 < 4096 /\ 0 <= 2048 < 4096
  /\ (map (mark 5) POWERS_DESC = map (mark 2048) POWERS_DESC -> 5 = 2048)
  /\ rows_to_punch (4096 + 5) = rows_to_punch 5.
Proof.
  assert (A : 0 <= 5 < 4096) by lia.
  assert (B : 0 <= 2048 < 4096) by lia.
  destruct (X2_punch_pattern_decodes 5 2048) as (_ & _ & D).
  destruct (X2_punch_pattern_decodes (4096 + 5) 5) as (R & _).
  split; [exact A|]. split; [exact B|]. split; [exact (D A B)|].
  apply R. reflexivity.
Defined.

(** ** The loader on a written list *)

Lemma splitlines_from_line (w cur rest : str) :
  no_break w = true ->
  splitlines_from cur (w ++ NL :: rest)
  = (rev cur ++ w) :: splitlines_from [] rest.
Proof.
  revert cur. induction w as [|c w IH]; intros cur H.
  - simpl. rewrite app_nil_r. reflexivity.
  - simpl in H. apply andb_true_iff in H. destruct H as [Hc Hw].
    apply negb_true_iff in Hc. simpl.
    assert (E : (c =? 13)%N = false).
    { destruct (N.eqb_spec c 13) as [->|]; [discriminate | reflexivity]. }
    rewrite E, Hc, (IH (c :: cur) Hw). simpl.
    rewrite <- app_assoc. reflexivity.
Qed.

Lemma splitlines_from_last (w cur : str) :
  no_break w = true ->
  splitlines_from cur w
  = match rev cur ++ w with [] => [] | _ => [rev cur ++ w] end.
Proof.
  revert cur. induction w as [|c w IH]; intros cur H.
  - simpl. rewrite app_nil_r. destruct cur as [|x cur]; [reflexivity|].
    destruct (rev (x :: cur)) eqn:E; [|reflexivity].
    apply (f_equal (@length N)) in E. rewrite length_rev in E. discriminate.
  - simpl in H. apply andb_true_iff in H. destruct H as [Hc Hw].
    apply negb_true_iff in Hc. simpl.
    assert (E : (c =? 13)%N = false).
    { destruct (N.eqb_spec c 13) as [->|]; [discriminate | reflexivity]. }
    rewrite E, Hc, (IH (c :: cur) Hw). simpl.
    rewrite <- app_assoc. reflexivity.
Qed.

Lemma splitlines_write_lines (ws : list str) :
  forallb no_break ws = true -> splitlines (write_lines ws) = ws.
Proof.
  unfold splitlines, write_lines.
  induction ws as [|w ws IH]; intros H; [reflexivity|].
  simpl in H. apply andb_true_iff in H. destruct H as [Hw Hws].
  simpl. rewrite <- app_assoc. simpl.
  rewrite splitlines_from_line by assumption. simpl.
  rewrite IH by assumption. reflexivity.
Qed.

Lemma splitlines_join (ws : list str) :
  forallb no_break ws = true -> forallb truthy ws = true ->
  splitlines (join [NL] ws) = ws.
Proof.
  unfold splitlines.
  induction ws as [|w ws IH]; intros H T; [reflexivity|].
  simpl in H, T. apply andb_true_iff in H, T.
  destruct H as [Hw Hws], T as [Tw Tws].
  destruct ws as [|w2 ws].
  - simpl. rewrite splitlines_from_last by assumption. simpl.
    destruct w; [discriminate | reflexivity].
  - change (join [NL] (w :: w2 :: ws)) with (w ++ NL :: join [NL] (w2 :: ws)).
    rewrite splitlines_from_line by assumption.
    rewrite IH by assumption. reflexivity.
Qed.

Lemma clean_word_spec (w : str) :
  clean_word w = true <-> (truthy w = true /\ strip w = w /\ no_break w = true).
Proof.
  unfold clean_word. rewrite !andb_true_iff, str_eqb_eq. tauto.
Qed.

Lemma clean_words_split (ws : list str) :
  forallb clean_word ws = true ->
  forallb no_break ws = true /\ forallb truthy ws = true /\ map strip ws = ws.
Proof.
  induction ws as [|w ws IH]; simpl; [auto|].
  rewrite andb_true_iff. intros [Hw Hws].
  apply clean_word_spec in Hw. destruct Hw as (T & S & B).
  destruct (IH Hws) as (A1 & A2 & A3).
  rewrite T, B, S, A1, A2, A3. auto.
Qed.

Lemma filter_all {A} (f : A -> bool) (l : list A) :
  forallb f l = true -> filter f l = l.
Proof.
  induction l as [|x l IH]; simpl; [reflexivity|].
  rewrite andb_true_iff. intros [-> H]. rewrite IH by assumption.
  reflexivity.
Qed.

Lemma lines_kept_clean_words (text : str) (ws : list str) :
  forallb clean_word ws = true -> splitlines text = ws ->
  lines_kept text = ws.
Proof.
  intros H E. destruct (clean_words_split ws H) as (_ & T & S).
  unfold lines_kept. rewrite E, S. apply filter_all, T.
Qed.

(** X3. Writing and loading are inverse on clean words. Take 2048 words,
    each not empty, without whitespace at either end and without a line
    boundary inside. Written one per line, with or without a newline
    after the last, they load as the same list in the same order:
    nothing is merged, split, reordered or dropped. *)
Theorem X3_load_written_list (path : str) (ws : list str) :
  length ws = 2048%nat ->
  forallb clean_word ws = true ->
  load_bip39 {| resolved := path; content := Some (write_lines ws) |} = inr ws
  /\ load_bip39 {| resolved := path; content := Some (join [NL] ws) |}
     = inr ws.
Proof.
  intros L H. destruct (clean_words_split ws H) as (B & T & _).
  split; rewrite load_bip39_eq; cbn [content].
  - rewrite (lines_kept_clean_words _ ws H (splitlines_write_lines ws B)).
    rewrite L. reflexivity.
  - rewrite (lines_kept_clean_words _ ws H (splitlines_join ws B T)).
    rewrite L. reflexivity.
Qed.

Lemma X3_witness :
  length (map word_of (range 1 2049)) = 2048%nat
  /\ forallb clean_word (map word_of (range 1 2049)) = true
  /\ load_bip39 {| resolved := lit "list.txt";
                   content := Some (join [NL] (map word_of (range 1 2049))) |}
     = inr (map word_of (range 1 2049)).
Proof.
  assert (L : length (map word_of (range 1 2049)) = 2048%nat)
    by (vm_compute; reflexivity).
  assert (H : forallb clean_word (map word_of (range 1 2049)) = true)
    by (vm_compute; reflexivity).
  split; [exact L|]. split; [exact H|].
  exact (proj2 (X3_load_written_list (lit "list.txt") _ L H)).
Defined.

(** ** What the loader returns is clean *)

Lemma splitlines_from_cons (cur : str) (c : N) (rest : str) :
  splitlines_from cur (c :: rest)
  = if (c =? 13)%N then
      match rest with
      | d :: rest' =>
          if (d =? 10)%N then rev cur :: splitlines_from [] rest'
          else rev cur :: splitlines_from [] rest
      | [] => rev cur :: splitlines_from [] rest
      end
    else if is_linebreak c then rev cur :: splitlines_from [] rest
    else splitlines_from (c :: cur) rest.
Proof.
  cbn [splitlines_from]. destruct (c =? 13)%N; [|reflexivity].
  destruct rest as [|d rest']; [reflexivity|].
  destruct d as [|p]; [reflexivity|].
  do 4 (destruct p as [p|p|]; try reflexivity).
Qed.

Lemma no_break_rev (s : str) : no_break (rev s) = no_break s.
Proof. apply forallb_rev. Qed.

Lemma splitlines_from_no_break (s cur : str) :
  no_break cur = true ->
  forallb no_break (splitlines_from cur s) = true.
Proof.
  remember (length s) as n eqn:Hn. revert s cur Hn.
  induction n as [n IH] using lt_wf_ind. intros s cur Hn H.
  assert (R : no_break (rev cur) = true) by (rewrite no_break_rev; exact H).
  destruct s as [|c s].
  - cbn [splitlines_from]. destruct cur; [reflexivity|].
    cbn [forallb]. rewrite R. reflexivity.
  - cbn [length] in Hn. rewrite splitlines_from_cons.
    destruct (c =? 13)%N.
    + destruct s as [|d s'].
      * cbn [forallb splitlines_from]. rewrite R. reflexivity.
      * cbn [length] in Hn. destruct (d =? 10)%N; cbn [forallb]; rewrite R;
          cbn [andb].
        -- apply (IH (length s')); [lia | reflexivity | reflexivity].
        -- apply (IH (length (d :: s'))); [cbn [length]; lia | reflexivity
                                           | reflexivity].
    + destruct (is_linebreak c) eqn:B.
      * cbn [forallb]. rewrite R. cbn [andb].
        apply (IH (length s)); [lia | reflexivity | reflexivity].
      * apply (IH (length s)); [lia | reflexivity|].
        unfold no_break. cbn [forallb]. rewrite B. exact H.
Qed.

Lemma no_break_app (a b : str) :
  no_break (a ++ b) = no_break a && no_break b.
Proof. apply forallb_app. Qed.

Lemma strip_no_break (s : str) : no_break s = true -> no_break (strip s) = true.
Proof.
  intros H. unfold strip.
  destruct (lstrip_suffix s) as (w1 & E1 & _).
  destruct (rstrip_prefix (lstrip s)) as (w2 & E2 & _).
  rewrite E1, no_break_app in H. apply andb_true_iff in H. destruct H as [_ H].
  rewrite E2, no_break_app in H. apply andb_true_iff in H. apply H.
Qed.

Lemma lines_kept_all_clean (text : str) :
  forallb clean_word (lines_kept text) = true.
Proof.
  apply forallb_forall. intros w Hw. apply clean_word_spec.
  unfold lines_kept in Hw. apply filter_In in Hw. destruct Hw as [Hw T].
  apply in_map_iff in Hw. destruct Hw as (x & <- & Hx).
  split; [exact T|]. split; [apply strip_strip|].
  apply strip_no_break.
  pose proof (splitlines_from_no_break text [] eq_refl) as A.
  rewrite forallb_forall in A. apply A, Hx.
Qed.

(** X4. Whatever file it came from, a list the loader returns is clean:
    every entry is not empty, has no whitespace at either end and holds
    no line boundary. So the loader is idempotent: writing the list it
    returned one entry per line and loading that file gives the same
    list again. *)
Theorem X4_loaded_list_reloads (f : file) (wordlist : list str) :
  load_bip39 f = inr wordlist ->
  forallb clean_word wordlist = true
  /\ load_bip39 {| resolved := resolved f;
                   content := Some (write_lines wordlist) |} = inr wordlist.
Proof.
  rewrite load_bip39_eq. destruct (content f) as [text|]; [|discriminate].
  destruct (length (lines_kept text) =? 2048)%nat eqn:L; [|discriminate].
  intros H; injection H as <-.
  pose proof (lines_kept_all_clean text) as C.
  split; [exact C|].
  destruct (clean_words_split _ C) as (B & _ & _).
  rewrite load_bip39_eq. cbn [content].
  rewrite (lines_kept_clean_words _ _ C (splitlines_write_lines _ B)).
  rewrite L. reflexivity.
Qed.

Lemma X4_witness :
  load_bip39 untidy_file = inr (map word_of (range 1 2049))
  /\ load_bip39 {| resolved := resolved untidy_file;
                   content := Some (write_lines (map word_of (range 1 2049))) |}
     = inr (map word_of (range 1 2049)).
Proof.
  assert (H : load_bip39 untidy_file = inr (map word_of (range 1 2049)))
    by (vm_compute; reflexivity).
  split; [exact H|].
  exact (proj2 (X4_loaded_list_reloads untidy_file _ H)).
Defined.

(** ** The resolver as a bijection *)

Section ResolverInverse.

Variable ratio : str -> str -> Q.

(** X5. An index names one word: if two words resolve to the same index
    in a word list, they are the same word, and that word is the entry at
    the index. This holds for every list, with repeated entries or not. *)
Theorem X5_index_names_one_word
  (wordlist : list str) (w1 w2 : str) (i : Z) :
  one_based_index ratio w1 wordlist = inl i ->
  one_based_index ratio w2 wordlist = inl i ->
  w1 = w2 /\ nth_error wordlist (Z.to_nat (i - 1)) = Some w1.
Proof.
  intros H1 H2.
  apply one_based_index_inl in H1, H2.
  destruct H1 as (k1 & E1 & ->), H2 as (k2 & E2 & K).
  assert (k2 = k1) by lia. subst k2.
  apply list_index_Some in E1, E2. destruct E1 as [A1 _], E2 as [A2 _].
  replace (Z.to_nat (Z.of_nat k1 + 1 - 1)) with k1 by lia.
  split; [congruence | exact A1].
Qed.

(** X6. The resolver inverts indexing exactly on the word lists without
    repeated entries: every entry resolves to its own position (the entry
    at [k], counted from 0, to [k + 1]) if and only if no entry occurs
    twice. *)
Theorem X6_entries_resolve_iff_distinct (wordlist : list str) :
  NoDup wordlist <->
  (forall k w, nth_error wordlist k = Some w ->
               one_based_index ratio w wordlist = inl (Z.of_nat k + 1)).
Proof.
  split.
  - intros N k w H. apply one_based_index_inl. exists k.
    split; [|reflexivity].
    destruct (list_index w wordlist) as [i|] eqn:E.
    + destruct (list_index_Some _ _ _ E) as [A _]. f_equal.
      apply (proj1 (NoDup_nth_error wordlist) N).
      * apply nth_error_Some. congruence.
      * congruence.
    + apply list_index_None in E. elim E. eapply nth_error_In, H.
  - intros H. apply NoDup_nth_error. intros i j Hi E.
    destruct (nth_error wordlist i) as [w|] eqn:Ei;
      [|apply nth_error_None in Ei; lia].
    pose proof (H i w Ei) as A. pose proof (H j w (eq_sym E)) as B.
    rewrite A in B. injection B as B. lia.
Qed.

End ResolverInverse.

Lemma X5_witness :
  one_based_index prefix_ratio (lit "able") small_list = inl 3
  /\ nth_error small_list (Z.to_nat (3 - 1)) = Some (lit "able").
Proof.
  assert (H : one_based_index prefix_ratio (lit "able") small_list = inl 3)
    by reflexivity.
  split; [exact H|].
  exact (proj2 (X5_index_names_one_word prefix_ratio small_list _ _ 3 H H)).
Defined.

Lemma small_list_NoDup : NoDup small_list.
Proof.
  unfold small_list.
  repeat (apply NoDup_cons;
          [intros H; repeat (destruct H as [H|H]; [discriminate|]); exact H|]).
  apply NoDup_nil.
Qed.

Lemma X6_witness :
  NoDup small_list
  /\ nth_error small_list 4 = Some (lit "zoo")
  /\ one_based_index prefix_ratio (lit "zoo") small_list = inl 5
  /\ ~ NoDup [lit "b"; lit "a"; lit "a"]
  /\ one_based_index prefix_ratio (lit "a") [lit "b"; lit "a"; lit "a"]
     = inl 2.
Proof.
  split; [exact small_list_NoDup|]. split; [reflexivity|]. split; [|split].
  - exact (proj1 (X6_entries_resolve_iff_distinct prefix_ratio small_list)
             small_list_NoDup 4%nat (lit "zoo") eq_refl).
  - intros N.
    pose proof (proj1 (X6_entries_resolve_iff_distinct prefix_ratio _) N
                  2%nat (lit "a") eq_refl) as E.
    discriminate.
  - reflexivity.
Defined.

(** ** More on the session loop *)

Section MoreLoopFacts.

Variable ratio : str -> str -> Q.
Variable wordlist : list str.

(** One iteration that makes the word list longer has appended an
    accepted line. *)
Lemma next_longer (st st1 : session) (line : str) :
  next ratio wordlist st (lower (strip line)) = inr st1 ->
  (length (words st) < length (words st1))%nat ->
  accepted wordlist line
  /\ words st1 = words st ++ [lower (strip line)].
Proof.
  unfold next, accepted. cbv zeta.
  destruct (is_undo (lower (strip line))) eqn:U.
  - destruct (pop (words st)) as [[w ws]|] eqn:P.
    + apply pop_Some in P.
      destruct (pop (indices st)) as [[i ix]|]; [|discriminate].
      intros H; injection H as <-. simpl. rewrite P, length_app. simpl. lia.
    + intros H; injection H as <-. lia.
  - destruct (str_eqb (lower (strip line)) []) eqn:E.
    + intros H; injection H as <-. lia.
    + unfold one_based_index.
      destruct (list_index (lower (strip line)) wordlist) as [k|] eqn:K.
      * intros H; injection H as <-. intros _. simpl.
        repeat split.
        -- apply str_eqb_neq, E.
        -- destruct (in_dec (list_eq_dec N.eq_dec) (lower (strip line)) wordlist)
             as [I|I]; [exact I|].
           apply list_index_None in I. congruence.
      * intros H; injection H as <-. lia.
Qed.

Lemma next_words (P : str -> Prop) (st st1 : session) (line : str) :
  P (lower (strip line)) -> Forall P (words st) ->
  next ratio wordlist st (lower (strip line)) = inr st1 ->
  Forall P (words st1).
Proof.
  intros Hl HF. unfold next.
  destruct (is_undo (lower (strip line))).
  - destruct (pop (words st)) as [[w ws]|] eqn:E.
    + apply pop_Some in E.
      destruct (pop (indices st)) as [[i ix]|]; [|discriminate].
      intros H; injection H as <-. simpl. rewrite E in HF.
      apply Forall_app in HF. apply HF.
    + intros H; injection H as <-. exact HF.
  - destruct (str_eqb (lower (strip line)) []).
    + intros H; injection H as <-. exact HF.
    + destruct (one_based_index ratio (lower (strip line)) wordlist).
      * intros H; injection H as <-. simpl. apply Forall_app.
        split; [exact HF | repeat constructor; exact Hl].
      * intros H; injection H as <-. exact HF.
Qed.

(** A property of every stripped and lowercased line holds of every word
    the loop holds. *)
Lemma session_loop_words (P : str -> Prop) (stdin : list str) :
  (forall line, P (lower (strip line))) ->
  forall st o st' r,
    Forall P (words st) ->
    session_loop ratio wordlist st stdin = (o, st', r) ->
    Forall P (words st').
Proof.
  intros HP. induction stdin as [|line rest IH]; intros st o st' r HF; simpl.
  - destruct (length (words st) <? MAX_WORDS)%nat;
      intros H; injection H as <- <- <-; exact HF.
  - destruct (length (words st) <? MAX_WORDS)%nat;
      [|intros H; injection H as <- <- <-; exact HF].
    pose proof (loop_body_next ratio wordlist st line) as N.
    destruct (loop_body ratio wordlist st line) as [o1 [e|st1]].
    + intros H; injection H as <- <- <-. exact HF.
    + simpl in N. symmetry in N.
      destruct (session_loop ratio wordlist st1 rest) as [[o2 st2] r2] eqn:S.
      intros H; injection H as <- <- <-.
      apply (IH st1 o2 st2 r2); [|exact S].
      apply (next_words P st st1 line (HP line) HF N).
Qed.

Lemma session_loop_full (st : session) (stdin : list str) :
  (MAX_WORDS <= length (words st))%nat ->
  session_loop ratio wordlist st stdin = ([], st, inr stdin).
Proof.
  intros H. apply Nat.ltb_ge in H. destruct stdin; simpl; rewrite H; reflexivity.
Qed.

Lemma session_loop_last_line (stdin : list str) :
  forall st o st' rest,
    (length (words st) < MAX_WORDS)%nat ->
    session_loop ratio wordlist st stdin = (o, st', inr rest) ->
    exists consumed line ws,
      stdin = consumed ++ line :: rest
      /\ accepted wordlist line
      /\ words st' = ws ++ [lower (strip line)].
Proof.
  induction stdin as [|line rest0 IH]; intros st o st' rest L; simpl.
  - apply Nat.ltb_lt in L. rewrite L. discriminate.
  - pose proof L as L'. apply Nat.ltb_lt in L'. rewrite L'.
    pose proof (loop_body_next ratio wordlist st line) as N.
    destruct (loop_body ratio wordlist st line) as [o1 [e|st1]];
      [discriminate|].
    simpl in N. symmetry in N.
    destruct (Nat.lt_ge_cases (length (words st1)) MAX_WORDS) as [L1|L1].
    + destruct (session_loop ratio wordlist st1 rest0) as [[o2 st2] r2] eqn:S.
      intros H; injection H as <- <- ->.
      destruct (IH st1 o2 st2 rest L1 S) as (c & l & ws & E & A & W).
      exists (line :: c), l, ws. rewrite E. auto.
    + rewrite (session_loop_full st1 rest0 L1).
      intros H; injection H as <- <- <-.
      destruct (next_longer st st1 line N) as [A W]; [lia|].
      exists [], line, (words st). auto.
Qed.


(** X8. The loop holds normal words only: every word held is lowercase
    and has nothing to strip. Hence an entry of the word list that is not
    lowercase, or that [strip] would change, can never be entered: no
    line resolves to it and it is never held. *)
Theorem X8_only_normal_words_are_held
  (stdin : list str) (o : list event) (st : session) (r : exn + list str) :
  session_loop ratio wordlist empty_session stdin = (o, st, r) ->
  Forall normal_word (words st)
  /\ (forall w, In w wordlist -> ~ normal_word w ->
        ~ In w (words st) /\ forall line, lower (strip line) <> w).
Proof.
  intros H.
  assert (F : Forall normal_word (words st)).
  { apply (session_loop_words normal_word stdin normal_line
             empty_session o st r); [constructor | exact H]. }
  split; [exact F|]. intros w _ Hw. split.
  - intros I. rewrite Forall_forall in F. apply Hw, F, I.
  - intros line E. apply Hw. rewrite <- E. apply normal_line.
Qed.

(** X9. The loop reads no further than the 24th word: when it stops with
    the session full, the lines it left unread follow directly the line
    that was accepted as the last word. *)
Theorem X9_loop_stops_at_last_word
  (stdin : list str) (o : list event) (st : session) (rest : list str) :
  session_loop ratio wordlist empty_session stdin = (o, st, inr rest) ->
  exists consumed line ws,
    stdin = consumed ++ line :: rest
    /\ accepted wordlist line
    /\ words st = ws ++ [lower (strip line)]
    /\ length ws = 23%nat.
Proof.
  intros H.
  destruct (session_loop_last_line stdin empty_session o st rest)
    as (c & l & ws & E & A & W); [simpl; unfold MAX_WORDS; lia | exact H|].
  exists c, l, ws. split; [exact E|]. split; [exact A|]. split; [exact W|].
  destruct (session_loop_good ratio wordlist stdin _ _ _ _
              (good_empty ratio wordlist) H) as [_ L].
  cbv beta iota in L. rewrite W, length_app in L. cbn [length] in L.
  unfold MAX_WORDS in L. lia.
Qed.

End MoreLoopFacts.

(** ** From the plate back to the words *)

(** X10. The plates can be read back. When [main] returns, every index it
    printed a row for lies in 1..2048, the weights punched for it sum to
    it, and the entry of the loaded word list at that sum (counted from
    1) is the word the user entered at that place, lowercased and
    stripped. *)
Theorem X10_plates_decode_to_the_words
  (ratio : str -> str -> Q) (f : file) (stdin : list str)
  (out : list event) :
  main ratio f stdin = (out, Returned) ->
  exists wordlist o st,
    load_bip39 f = inr wordlist
    /\ out = Print banner :: o ++ report st
    /\ length (indices st) = 24%nat
    /\ Forall2
         (fun w i =>
            1 <= i <= 2048
            /\ py_sum (rows_to_punch i) = i
            /\ nth_error wordlist (Z.to_nat (py_sum (rows_to_punch i) - 1))
               = Some w)
         (words st) (indices st).
Proof.
  unfold main. destruct (load_bip39 f) as [msg|wordlist] eqn:L; [discriminate|].
  destruct (session_loop ratio wordlist empty_session stdin)
    as [[o st] [x|rest]] eqn:S; [discriminate|].
  intros H; injection H as <-.
  destruct (session_loop_good ratio wordlist stdin _ _ _ _
              (good_empty ratio wordlist) S) as [[_ HF] Hw].
  exists wordlist, o, st. split; [reflexivity|]. split; [reflexivity|].
  split; [rewrite <- (Forall2_length HF); exact Hw|].
  assert (Len : length wordlist = 2048%nat).
  { rewrite load_bip39_eq in L. destruct (content f) as [text|]; [|discriminate].
    destruct (length (lines_kept text) =? 2048)%nat eqn:E; [|discriminate].
    injection L as <-. apply Nat.eqb_eq, E. }
  revert HF. apply Forall2_impl. intros w i (_ & _ & E).
  apply one_based_index_inl in E. destruct E as (k & E & ->).
  destruct (list_index_Some _ _ _ E) as [A _].
  assert (k < 2048)%nat by (rewrite <- Len; apply nth_error_Some; congruence).
  assert (R : 1 <= Z.of_nat k + 1 <= 2048) by lia.
  split; [exact R|]. rewrite (rows_to_punch_sum _ R).
  split; [reflexivity|].
  replace (Z.to_nat (Z.of_nat k + 1 - 1)) with k by lia. exact A.
Qed.

Lemma X10_witness :
  exists out wordlist o st,
    main prefix_ratio bip_file typed_lines = (out, Returned)
    /\ load_bip39 bip_file = inr wordlist
    /\ out = Print banner :: o ++ report st
    /\ length (indices st) = 24%nat.
Proof.
  destruct (main prefix_ratio bip_file typed_lines) as [out e] eqn:M.
  assert (E : e = Returned).
  { change e with (snd (out, e)). rewrite <- M. vm_compute. reflexivity. }
  subst e.
  destruct (X10_plates_decode_to_the_words prefix_ratio bip_file typed_lines
              out M) as (wl & o & st & A & B & C & _).
  exists out, wl, o, st. auto.
Defined.

(** ** Columns of the grid *)

Lemma join_cell (cells : list str) :
  forall k c tail,
    Forall (fun x => length x = 4%nat) cells ->
    nth_error cells k = Some c ->
    firstn 4 (skipn (5 * k) (join (lit " ") cells ++ tail)) = c.
Proof.
  induction cells as [|x cells IH]; intros k c tail HF Hk.
  - destruct k; discriminate.
  - inversion HF as [|? ? Hx HF']; subst.
    destruct x as [|x1 [|x2 [|x3 [|x4 [|]]]]]; try discriminate.
    destruct k as [|k].
    + injection Hk as <-. destruct cells; reflexivity.
    + simpl in Hk. destruct cells as [|y cells]; [destruct k; discriminate|].
      change (join (lit " ") ([x1; x2; x3; x4] :: y :: cells))
        with ([x1; x2; x3; x4] ++ lit " " ++ join (lit " ") (y :: cells)).
      replace (5 * S k)%nat with (5 + 5 * k)%nat by lia.
      rewrite <- !app_assoc.
      change (skipn (5 + 5 * k)
                ([x1; x2; x3; x4] ++ lit " "
                 ++ join (lit " ") (y :: cells) ++ tail))
        with (skipn (5 * k) (join (lit " ") (y :: cells) ++ tail)).
      apply IH; assumption.
Qed.

Lemma mark_width (idx1 p : Z) : length (mark idx1 p) = 4%nat.
Proof. unfold mark. destruct (negb (Z.land idx1 p =? 0)); reflexivity. Qed.

Lemma word_number_width :
  forallb (fun r => (length (rjust 3 (dec r)) =? 3)%nat) (range 0 1000) = true.
Proof. vm_compute. reflexivity. Qed.

(** X11. The grid is aligned. The cell of the [k]-th weight takes the
    four columns from [5 + 5 * k] on, in the header and in every row whose
    word number has at most three digits; [main] numbers the rows 1 to
    24. In the header the cell holds the weight, right-aligned; in a row
    it holds the mark of that weight for the row's index. *)
Theorem X11_cells_are_aligned (r idx1 p : Z) (k : nat) :
  0 <= r < 1000 ->
  nth_error POWERS_DESC k = Some p ->
  firstn 4 (skipn (5 + 5 * k) plate_header) = rjust 4 (dec p)
  /\ firstn 4 (skipn (5 + 5 * k) (plate_row r idx1)) = mark idx1 p.
Proof.
  intros Hr Hk. split.
  - unfold POWERS_DESC in Hk.
    do 12 (destruct k as [|k];
           [injection Hk as <-; vm_compute; reflexivity|]).
    destruct k; discriminate.
  - pose proof word_number_width as W. rewrite forallb_forall in W.
    specialize (W r (range_In 0 1000 r Hr)). apply Nat.eqb_eq in W.
    unfold plate_row. cbv zeta.
    destruct (rjust 3 (dec r)) as [|a [|b [|c [|]]]]; try discriminate.
    change (skipn (5 + 5 * k)
              ([a; b; c] ++ lit " |"
               ++ join (lit " ") (map (mark idx1) POWERS_DESC)
               ++ lit "  (" ++ dec idx1 ++ lit ")"))
      with (skipn (5 * k)
              (join (lit " ") (map (mark idx1) POWERS_DESC)
               ++ lit "  (" ++ dec idx1 ++ lit ")")).
    apply join_cell.
    + apply Forall_forall. intros x Hx. apply in_map_iff in Hx.
      destruct Hx as (q & <- & _). apply mark_width.
    + rewrite nth_error_map, Hk. reflexivity.
Qed.

Lemma X11_witness :
  0 <= 24 < 1000
  /\ nth_error POWERS_DESC 9 = Some 4
  /\ firstn 4 (skipn 50 plate_header) = lit "   4"
  /\ firstn 4 (skipn 50 (plate_row 24 5)) = FILLED.
Proof.
  assert (R : 0 <= 24 < 1000) by lia.
  destruct (X11_cells_are_aligned 24 5 4 9 R eq_refl) as [A B].
  split; [exact R|]. split; [reflexivity|]. split; [exact A | exact B].
Defined.

(** ** The titles of the two plates *)

Lemma no_plates_nil (o : list event) :
  plates o = 0%nat -> filter is_plate_title o = [].
Proof. unfold plates. apply length_zero_iff_nil. Qed.

Lemma plate_titles_render (block : list Z) (plate_no start : Z) :
  filter is_plate_title (render_plate_rotated block plate_no start)
  = [Print (plate_title block plate_no start)].
Proof.
  unfold render_plate_rotated. rewrite filter_app.
  rewrite (no_plates_nil _ (plates_rows block start)), app_nil_r.
  cbn [filter].
  replace (is_plate_title (Print (plate_title block plate_no start)))
    with true by (symmetry; unfold plate_title; apply str_eqb_refl).
  reflexivity.
Qed.

Lemma plate_title_length (b1 b2 : list Z) (plate_no start : Z) :
  length b1 = length b2 ->
  plate_title b1 plate_no start = plate_title b2 plate_no start.
Proof. intros E. unfold plate_title. rewrite E. reflexivity. Qed.

(** X13. Whenever [main] returns, the only plate titles in its output
    are these two, in this order: plate 1 for the words 1 to 12 and plate
    2 for the words 13 to 24. The word range in a title is computed from
    the length of the block, and both blocks hold 12 indices. *)
Theorem X13_plate_titles
  (ratio : str -> str -> Q) (f : file) (stdin : list str)
  (out : list event) :
  main ratio f stdin = (out, Returned) ->
  filter is_plate_title out
  = [Print ([NL] ++ lit "=== PLATE 1 " ++ [EM_DASH] ++ lit " words 1"
            ++ [EN_DASH] ++ lit "12 ===");
     Print ([NL] ++ lit "=== PLATE 2 " ++ [EM_DASH] ++ lit " words 13"
            ++ [EN_DASH] ++ lit "24 ===")].
Proof.
  unfold main. destruct (load_bip39 f) as [msg|wordlist]; [discriminate|].
  destruct (session_loop ratio wordlist empty_session stdin)
    as [[o st] [x|rest]] eqn:S; [discriminate|].
  intros H; injection H as <-.
  destruct (session_loop_good ratio wordlist stdin _ _ _ _
              (good_empty ratio wordlist) S) as [[_ HF] Hw].
  apply Forall2_length in HF. unfold MAX_WORDS in Hw.
  assert (H1 : length (firstn 12 (indices st)) = length (repeat 0 12))
    by (rewrite length_firstn, repeat_length; lia).
  assert (H2 : length (skipn 12 (indices st)) = length (repeat 0 12))
    by (rewrite length_skipn, repeat_length; lia).
  change (Print banner :: o ++ report st)
    with ([Print banner] ++ o ++ report st).
  unfold report, PLATE_ROWS. rewrite !filter_app, !plate_titles_render.
  rewrite (no_plates_nil _ (plates_session_loop ratio _ _ _ _ _ _ S)).
  rewrite (no_plates_nil _ (plates_summary st)).
  rewrite (plate_title_length _ _ 1 1 H1), (plate_title_length _ _ 2 13 H2).
  reflexivity.
Qed.

Lemma X13_witness :
  exists out,
    main prefix_ratio bip_file typed_lines = (out, Returned)
    /\ length (filter is_plate_title out) = 2%nat.
Proof.
  destruct (main prefix_ratio bip_file typed_lines) as [out e] eqn:M.
  assert (E : e = Returned).
  { change e with (snd (out, e)). rewrite <- M. vm_compute. reflexivity. }
  subst e. exists out. split; [reflexivity|].
  rewrite (X13_plate_titles prefix_ratio bip_file typed_lines out M).
  reflexivity.
Defined.

(** ** One answer per line *)

Section DialogueFacts.

Variable ratio : str -> str -> Q.
Variable wordlist : list str.

Lemma loop_body_answers (st : session) (line : str) :
  good ratio wordlist st ->
  exists p a, fst (loop_body ratio wordlist st line) = [Prompt p; Print a].
Proof.
  intros [_ HF]. unfold loop_body.
  destruct (is_undo (lower (strip line))).
  - destruct (pop (words st)) as [[w ws]|] eqn:Pw; [|simpl; eauto].
    destruct (pop (indices st)) as [[i ix]|] eqn:Pi; [simpl; eauto|].
    apply pop_Some in Pw. apply pop_None in Pi.
    apply Forall2_length in HF. rewrite Pw, Pi, length_app in HF.
    simpl in HF. lia.
  - destruct (str_eqb (lower (strip line)) []); [simpl; eauto|].
    destruct (one_based_index ratio (lower (strip line)) wordlist);
      simpl; eauto.
Qed.

Lemma session_loop_dialogue (stdin : list str) :
  forall st o st' r,
    good ratio wordlist st ->
    session_loop ratio wordlist st stdin = (o, st', r) ->
    dialogue o = true
    /\ match r with
       | inr rest =>
           (length o + 2 * length rest = 2 * length stdin)%nat
       | inl _ => length o = (2 * length stdin + 1)%nat
       end.
Proof.
  induction stdin as [|line rest IH]; intros st o st' r G; simpl.
  - destruct (length (words st) <? MAX_WORDS)%nat;
      intros H; injection H as <- <- <-; auto.
  - destruct (length (words st) <? MAX_WORDS)%nat eqn:L;
      [|intros H; injection H as <- <- <-; simpl; split; [reflexivity | lia]].
    apply Nat.ltb_lt in L.
    destruct (next_good ratio wordlist st (lower (strip line)) G L)
      as (st1 & N & G1).
    rewrite <- loop_body_next in N.
    destruct (loop_body_answers st line G) as (p & a & E).
    destruct (loop_body ratio wordlist st line) as [o1 r1].
    simpl in N, E. subst o1 r1.
    destruct (session_loop ratio wordlist st1 rest) as [[o2 st2] r2] eqn:S.
    intros H; injection H as <- <- <-.
    destruct (IH st1 o2 st2 r2 G1 S) as [D C].
    split; [exact D|]. destruct r2; simpl; lia.
Qed.

(** X12. The loop answers every line it reads with exactly one printed
    line: its output is a sequence of prompts, each followed by one
    printed line. When the session fills, that is two writes for each
    line read; when standard input runs out, one more prompt is left
    unanswered. *)
Theorem X12_one_answer_per_line
  (stdin : list str) (o : list event) (st : session) (r : exn + list str) :
  session_loop ratio wordlist empty_session stdin = (o, st, r) ->
  dialogue o = true
  /\ match r with
     | inr rest => (length o + 2 * length rest = 2 * length stdin)%nat
     | inl _ => length o = (2 * length stdin + 1)%nat
     end.
Proof.
  apply session_loop_dialogue, good_empty.
Qed.

End DialogueFacts.

(** * Worked examples of the further properties *)


Lemma X8_witness :
  (exists o r,
     session_loop prefix_ratio capital_list empty_session
       [lit "Abandon"; lit " ZOO"]
     = (o, {| words := [lit "zoo"]; indices := [2] |}, r))
  /\ In (lit "Abandon") capital_list
  /\ ~ normal_word (lit "Abandon")
  /\ (forall line, lower (strip line) <> lit "Abandon").
Proof.
  assert (H : exists o r,
             session_loop prefix_ratio capital_list empty_session
               [lit "Abandon"; lit " ZOO"]
             = (o, {| words := [lit "zoo"]; indices := [2] |}, r))
    by (do 2 eexists; vm_compute; reflexivity).
  assert (I : In (lit "Abandon") capital_list) by (left; reflexivity).
  assert (N : ~ normal_word (lit "Abandon"))
    by (intros [E _]; discriminate).
  split; [exact H|]. destruct H as (o & r & H).
  split; [exact I|]. split; [exact N|].
  exact (proj2 (proj2 (X8_only_normal_words_are_held prefix_ratio
                         capital_list _ o _ r H) _ I N)).
Defined.

Lemma X9_witness :
  exists o st consumed line,
    session_loop prefix_ratio small_list empty_session
      (repeat (lit "zoo") 24 ++ [lit "left"; lit "over"])
    = (o, st, inr [lit "left"; lit "over"])
    /\ repeat (lit "zoo") 24 ++ [lit "left"; lit "over"]
       = consumed ++ line :: [lit "left"; lit "over"]
    /\ accepted small_list line.
Proof.
  destruct (session_loop prefix_ratio small_list empty_session
              (repeat (lit "zoo") 24 ++ [lit "left"; lit "over"]))
    as [[o st] r] eqn:S.
  assert (E : r = inr [lit "left"; lit "over"]).
  { change r with (snd (o, st, r)). rewrite <- S. vm_compute. reflexivity. }
  subst r.
  destruct (X9_loop_stops_at_last_word prefix_ratio small_list _ o st _ S)
    as (c & l & ws & A & B & _).
  exists o, st, c, l. split; [reflexivity|]. split; [exact A | exact B].
Defined.

Lemma X12_witness :
  exists o st,
    session_loop prefix_ratio small_list empty_session
      [lit "Able"; lit ""; lit "nope"; lit "back"]
    = (o, st, inl EOFError)
    /\ dialogue o = true /\ length o = 9%nat.
Proof.
  destruct (session_loop prefix_ratio small_list empty_session
              [lit "Able"; lit ""; lit "nope"; lit "back"])
    as [[o st] r] eqn:S.
  assert (E : r = inl EOFError).
  { change r with (snd (o, st, r)). rewrite <- S. vm_compute. reflexivity. }
  subst r.
  destruct (X12_one_answer_per_line prefix_ratio small_list _ o st _ S)
    as [D L].
  exists o, st. split; [reflexivity|]. split; [exact D | exact L].
Defined.
